(** * battery-monitor: the record parser, the bar geometry and the read loop

  A shallow embedding of [battery-monitor.c].  C integers are modelled as
  [Z] with the conversions of a 32-bit [int] / [unsigned int] written out,
  C strings as the [string] of their characters before the terminating
  NUL, [double] as the kernel's binary64 floats, and the file system and
  the screen as explicit inputs and event traces. *)

From Stdlib Require Import ZArith List String Ascii Bool Lia.
From Stdlib Require Import QArith Qround.
From Stdlib Require Import Floats Uint63.
From Equations Require Import Equations.
Import ListNotations.

Local Open Scope Z_scope.

(** ** 32-bit C integers *)

Module CInt.

Definition UINT_MOD : Z := 2 ^ 32.
Definition INT_MAX : Z := 2 ^ 31 - 1.
Definition INT_MIN : Z := - 2 ^ 31.
Definition LONG_MAX : Z := 2 ^ 63 - 1.
Definition LONG_MIN : Z := - 2 ^ 63.

(** Conversion to [unsigned int]: reduction modulo 2^32. *)
Definition to_uint (z : Z) : Z := z mod UINT_MOD.

(** Conversion to [int] (two's complement, as gcc defines it). *)
Definition to_int (z : Z) : Z :=
  let u := z mod UINT_MOD in
  if u <=? INT_MAX then u else u - UINT_MOD.

Definition is_int (z : Z) : Prop := INT_MIN <= z <= INT_MAX.
Definition is_uint (z : Z) : Prop := 0 <= z < UINT_MOD.

Lemma to_uint_range z : is_uint (to_uint z).
Proof. unfold is_uint, to_uint, UINT_MOD. apply Z.mod_pos_bound. lia. Qed.

Lemma to_uint_small z : 0 <= z < UINT_MOD -> to_uint z = z.
Proof. intros H. unfold to_uint. apply Z.mod_small. exact H. Qed.

Lemma to_uint_neg z : - UINT_MOD <= z < 0 -> to_uint z = z + UINT_MOD.
Proof.
  intros H. unfold to_uint.
  symmetry. apply Z.mod_unique with (q := -1); unfold UINT_MOD in *; lia.
Qed.

Lemma to_int_small z : 0 <= z <= INT_MAX -> to_int z = z.
Proof.
  intros H. unfold to_int.
  rewrite Z.mod_small by (unfold UINT_MOD, INT_MAX in *; lia).
  destruct (Z.leb_spec z INT_MAX); lia.
Qed.

Lemma to_int_range z : is_int (to_int z).
Proof.
  unfold is_int, to_int.
  pose proof (Z.mod_pos_bound z UINT_MOD ltac:(unfold UINT_MOD; lia)) as H.
  destruct (Z.leb_spec (z mod UINT_MOD) INT_MAX);
    unfold UINT_MOD, INT_MAX, INT_MIN in *; lia.
Qed.

End CInt.
Import CInt.

(** ** C strings and the libc functions the parser calls *)

Module CString.

Definition TAB : ascii := ascii_of_nat 9.
Definition LF : ascii := ascii_of_nat 10.
Definition VT : ascii := ascii_of_nat 11.
Definition FF : ascii := ascii_of_nat 12.
Definition CR : ascii := ascii_of_nat 13.
Definition SP : ascii := ascii_of_nat 32.

(** [strchr s c] as a test: [true] when [strchr] returns a non-NULL
    pointer, for a character [c] other than NUL. *)
Fixpoint strchr (s : string) (c : ascii) : bool :=
  match s with
  | EmptyString => false
  | String a rest => if Ascii.eqb a c then true else strchr rest c
  end.

(** The characters of a string, in order. *)
Fixpoint chars (s : string) : list ascii :=
  match s with
  | EmptyString => []
  | String a rest => a :: chars rest
  end.

Lemma strchr_In s c : strchr s c = true <-> In c (chars s).
Proof.
  induction s as [|a rest IH]; simpl.
  - split; [discriminate | tauto].
  - destruct (Ascii.eqb_spec a c) as [->|Hne].
    + split; auto.
    + rewrite IH. split; [auto | intros [H|H]; [contradiction | exact H]].
Qed.

(** [isspace] in the C locale. *)
Definition isspace (c : ascii) : bool :=
  Ascii.eqb c SP || Ascii.eqb c TAB || Ascii.eqb c LF
  || Ascii.eqb c VT || Ascii.eqb c FF || Ascii.eqb c CR.

Definition digit_value (c : ascii) : option Z :=
  let n := Z.of_nat (nat_of_ascii c) in
  if (48 <=? n) && (n <=? 57) then Some (n - 48) else None.

(** The digits loop of [strtol] in base 10: the value of the longest
    prefix of decimal digits. *)
Fixpoint digits_value (s : string) (acc : Z) : Z :=
  match s with
  | EmptyString => acc
  | String c rest =>
      match digit_value c with
      | Some d => digits_value rest (10 * acc + d)
      | None => acc
      end
  end.

Fixpoint skip_spaces (s : string) : string :=
  match s with
  | EmptyString => EmptyString
  | String c rest => if isspace c then skip_spaces rest else s
  end.

(** [strtol(s, NULL, 10)]: leading white space, an optional sign, decimal
    digits; no digits give 0; the result saturates at the bounds of a
    64-bit [long]. *)
Definition strtol (s : string) : Z :=
  let v :=
    match skip_spaces s with
    | String "-"%char rest => - digits_value rest 0
    | String "+"%char rest => digits_value rest 0
    | t => digits_value t 0
    end in
  Z.max LONG_MIN (Z.min LONG_MAX v).

(** [atoi(s)] is [(int) strtol(s, NULL, 10)].  ISO C leaves the result
    undefined when the value does not fit an [int]; this is what glibc
    returns. *)
Definition atoi (s : string) : Z := to_int (strtol s).

(** [strtok]: the saved pointer is passed explicitly.  Leading delimiters
    are skipped; at the end of the string the result is NULL ([None]);
    otherwise the token runs up to the next delimiter, which is
    overwritten by NUL, and the saved pointer moves behind it. *)
Fixpoint skip_delims (delim s : string) : string :=
  match s with
  | EmptyString => EmptyString
  | String c rest => if strchr delim c then skip_delims delim rest else s
  end.

Fixpoint split_token (delim s : string) : string * string :=
  match s with
  | EmptyString => (EmptyString, EmptyString)
  | String c rest =>
      if strchr delim c then (EmptyString, rest)
      else let (tok, save) := split_token delim rest in (String c tok, save)
  end.

Definition strtok (save delim : string) : option (string * string) :=
  match skip_delims delim save with
  | EmptyString => None
  | s => Some (split_token delim s)
  end.

Lemma skip_delims_length delim s :
  (String.length (skip_delims delim s) <= String.length s)%nat.
Proof.
  induction s as [|c rest IH]; simpl; [lia|].
  destruct (strchr delim c); simpl; lia.
Qed.

Lemma split_token_length delim s :
  (String.length (snd (split_token delim s)) <= String.length s)%nat.
Proof.
  induction s as [|c rest IH]; simpl; [lia|].
  destruct (strchr delim c); simpl; [lia|].
  destruct (split_token delim rest); simpl in *; lia.
Qed.

Lemma split_token_first delim c rest :
  strchr delim c = false ->
  exists tok, fst (split_token delim (String c rest)) = String c tok.
Proof.
  intros H. simpl. rewrite H.
  destruct (split_token delim rest) as [tok save]. exists tok. reflexivity.
Qed.

Lemma skip_delims_head delim s c rest :
  skip_delims delim s = String c rest -> strchr delim c = false.
Proof.
  induction s as [|a s IH]; simpl; [discriminate|].
  destruct (strchr delim a) eqn:Ha; [exact IH|].
  intros E. injection E as -> _. exact Ha.
Qed.

Lemma strtok_shorter save delim tok save' :
  strtok save delim = Some (tok, save') ->
  (String.length save' < String.length save)%nat.
Proof.
  unfold strtok. intros H.
  pose proof (skip_delims_length delim save) as Hs.
  destruct (skip_delims delim save) as [|c rest] eqn:E; [discriminate|].
  injection H as H.
  simpl in H. rewrite (skip_delims_head _ _ _ _ E) in H.
  pose proof (split_token_length delim rest) as Hl.
  destruct (split_token delim rest) as [t r]. injection H as _ <-.
  simpl in *. lia.
Qed.

(** A token returned by [strtok] is never empty. *)
Lemma strtok_nonempty save delim tok save' :
  strtok save delim = Some (tok, save') -> tok <> EmptyString.
Proof.
  unfold strtok. intros H.
  destruct (skip_delims delim save) as [|c rest] eqn:E; [discriminate|].
  injection H as H.
  simpl in H. rewrite (skip_delims_head _ _ _ _ E) in H.
  destruct (split_token delim rest) as [t r]. injection H as <- _.
  discriminate.
Qed.

End CString.
Import CString.

(** ** The record parser *)

Module Parser.

Definition ALLOWED_CHARS : string :=
  "0123456789ABCDEFGHIJKLMNOPQRSTUVWXYZ,"%string.

(** The literal [" \t\r\n"] of [is_valid_line]. *)
Definition WHITE_SPACE : string :=
  String SP (String TAB (String CR (String LF EmptyString))).

(** First loop of [is_valid_line]: copy to [tmp] the characters that are
    not in [" \t\r\n"]. *)
Fixpoint strip_white_space (line : string) : string :=
  match line with
  | EmptyString => EmptyString
  | String c rest =>
      if strchr WHITE_SPACE c then strip_white_space rest
      else String c (strip_white_space rest)
  end.

(** Second loop: stops with [false] at the first character of [tmp] that
    is not among [ALLOWED_CHARS]. *)
Fixpoint check_allowed (tmp : string) : bool :=
  match tmp with
  | EmptyString => true
  | String c rest => if strchr ALLOWED_CHARS c then check_allowed rest else false
  end.

(** [is_valid_line line]: the returned flag, and the contents of the
    caller's buffer [line] after the call ([strcpy (line, tmp)] runs only
    for a valid line). *)
Definition is_valid_line (line : string) : bool * string :=
  let tmp := strip_white_space line in
  let valid_line := negb (Nat.eqb (String.length tmp) 0) in
  let valid_line := if check_allowed tmp then valid_line else false in
  (valid_line, if valid_line then tmp else line).

(** The contract [validate_and_normalize] of the design, read off the
    flag and the buffer of [is_valid_line]. *)
Definition validate_and_normalize (raw : string) : option string :=
  let (valid_line, line) := is_valid_line raw in
  if valid_line then Some line else None.

Definition first_char_is (c : ascii) (token : string) : bool :=
  match token with
  | EmptyString => false
  | String a _ => Ascii.eqb a c
  end.

(** The state of the loop of [read_voltages]: the zone flag and the
    values stored through [voltages_offset] so far. *)
Definition loop_state : Type := bool * list Z.

(** One pass through the body of the [do ... while] loop. *)
Definition loop_body (token : string) (st : loop_state) : loop_state :=
  let '(battery_data_zone, stored) := st in
  let battery_data_zone :=
    if first_char_is "H" token then false else battery_data_zone in
  let stored :=
    if battery_data_zone then stored ++ [atoi token] else stored in
  let battery_data_zone :=
    if first_char_is "B" token then true else battery_data_zone in
  (battery_data_zone, stored).

Definition inspect {A} (a : A) : {b : A | a = b} := exist _ a eq_refl.

(** The [do ... while (NULL != (token = strtok (NULL, ",")))] loop, from
    the current token and the pointer saved by [strtok]. *)
Equations? do_while (token save : string) (st : loop_state) : loop_state
  by wf (String.length save) lt :=
  do_while token save st with inspect (strtok save ",") := {
    | exist _ (Some (token', save')) _ =>
        do_while token' save' (loop_body token st)
    | exist _ None _ => loop_body token st }.
Proof. eapply strtok_shorter; eauto. Defined.

(** [read_voltages line voltages]: the values stored in [voltages], the
    closing [-1] included.  [None] is the dereference of a NULL [token]
    when the first [strtok] finds no token. *)
Definition read_voltages (line : string) : option (list Z) :=
  match strtok line "," with
  | None => None
  | Some (token, save) =>
      Some (snd (do_while token save (false, [])) ++ [-1])
  end.

(** The successive results of [strtok] on a line. *)
Equations? tokens (save : string) : list string
  by wf (String.length save) lt :=
  tokens save with inspect (strtok save ",") := {
    | exist _ (Some (token, save')) _ => token :: tokens save'
    | exist _ None _ => [] }.
Proof. eapply strtok_shorter; eauto. Defined.

End Parser.
Import Parser.

(** ** Binary64 arithmetic *)

Module Double.

(** [(double) u] for an [unsigned int] [u]; exact, as [u < 2^53]. *)
Definition of_uint (u : Z) : float := PrimFloat.of_uint63 (Uint63.of_Z u).

(** The integer part of a finite double, towards zero. *)
Definition truncate (x : float) : option Z :=
  match Prim2SF x with
  | S754_zero _ => Some 0
  | S754_finite s m e =>
      let a :=
        match e with
        | Z0 => Zpos m
        | Zpos p => Z.shiftl (Zpos m) (Zpos p)
        | Zneg p => Z.shiftr (Zpos m) (Zpos p)
        end in
      Some (if s then - a else a)
  | S754_infinity _ | S754_nan => None
  end.

(** [(int) x]: truncation towards zero; C leaves the conversion undefined
    ([None]) when the integer part does not fit an [int], and for NaN and
    the infinities. *)
Definition to_int (x : float) : option Z :=
  match truncate x with
  | Some z => if (INT_MIN <=? z) && (z <=? INT_MAX) then Some z else None
  | None => None
  end.

(** The exact value of a finite double, as a rational. *)
Definition to_Q (x : float) : option Q :=
  match Prim2SF x with
  | S754_zero _ => Some 0%Q
  | S754_finite s m e =>
      let a :=
        match e with
        | Z0 => inject_Z (Zpos m)
        | Zpos p => inject_Z (Z.shiftl (Zpos m) (Zpos p))
        | Zneg p => Qmake (Zpos m) (2 ^ p)%positive
        end in
      Some (if s then Qopp a else a)
  | S754_infinity _ | S754_nan => None
  end.

End Double.

(** ** The configuration: the program's global variables *)

Module Config.

Record globals : Type := {
  SCREEN_HEIGHT : Z;          (* unsigned int *)
  OFFSET_TOP : Z;             (* unsigned int *)
  BAR_WIDTH : Z;              (* unsigned int *)
  SPACE_BETWEEN_BARS : Z;     (* int *)
  VOLTS_MIN : Z;              (* unsigned int *)
  VOLTS_MAX : Z;              (* unsigned int *)
  VOLTS_STEP : float;         (* double *)
  MAX_LINE_LENGTH : Z;        (* unsigned int *)
  FRAME_INTERVAL : Z;         (* unsigned int *)
  OUTPUT_FILE : option string (* char*, NULL when absent *)
}.

Definition OFFSET_LEFT : Z := 10.
Definition OFFSET_BOTTOM : Z := 3.

(** The initializers of the globals; the two without one start at zero. *)
Definition initial_globals : globals := {|
  SCREEN_HEIGHT := 24;
  OFFSET_TOP := 0;
  BAR_WIDTH := 3;
  SPACE_BETWEEN_BARS := 3;
  VOLTS_MIN := 80;
  VOLTS_MAX := 150;
  VOLTS_STEP := 0%float;
  MAX_LINE_LENGTH := 512;
  FRAME_INTERVAL := 0;
  OUTPUT_FILE := None
|}.

(** One turn of the [switch (c)] of [set_options], for the value [c]
    returned by [getopt_long_only] and its [optarg]; the flag is
    [failure].  The products are reduced modulo 2^32 by the assignment. *)
Definition set_option (c : Z) (optarg : string) (st : globals * bool)
  : globals * bool :=
  let (g, failure) := st in
  match c with
  | 1 => ({| SCREEN_HEIGHT := to_uint (atoi optarg);
             OFFSET_TOP := OFFSET_TOP g; BAR_WIDTH := BAR_WIDTH g;
             SPACE_BETWEEN_BARS := SPACE_BETWEEN_BARS g;
             VOLTS_MIN := VOLTS_MIN g; VOLTS_MAX := VOLTS_MAX g;
             VOLTS_STEP := VOLTS_STEP g; MAX_LINE_LENGTH := MAX_LINE_LENGTH g;
             FRAME_INTERVAL := FRAME_INTERVAL g; OUTPUT_FILE := OUTPUT_FILE g |},
          failure)
  | 2 => ({| SCREEN_HEIGHT := SCREEN_HEIGHT g;
             OFFSET_TOP := OFFSET_TOP g; BAR_WIDTH := to_uint (atoi optarg);
             SPACE_BETWEEN_BARS := SPACE_BETWEEN_BARS g;
             VOLTS_MIN := VOLTS_MIN g; VOLTS_MAX := VOLTS_MAX g;
             VOLTS_STEP := VOLTS_STEP g; MAX_LINE_LENGTH := MAX_LINE_LENGTH g;
             FRAME_INTERVAL := FRAME_INTERVAL g; OUTPUT_FILE := OUTPUT_FILE g |},
          failure)
  | 3 => ({| SCREEN_HEIGHT := SCREEN_HEIGHT g;
             OFFSET_TOP := OFFSET_TOP g; BAR_WIDTH := BAR_WIDTH g;
             SPACE_BETWEEN_BARS := atoi optarg;
             VOLTS_MIN := VOLTS_MIN g; VOLTS_MAX := VOLTS_MAX g;
             VOLTS_STEP := VOLTS_STEP g; MAX_LINE_LENGTH := MAX_LINE_LENGTH g;
             FRAME_INTERVAL := FRAME_INTERVAL g; OUTPUT_FILE := OUTPUT_FILE g |},
          failure)
  | 4 => ({| SCREEN_HEIGHT := SCREEN_HEIGHT g;
             OFFSET_TOP := OFFSET_TOP g; BAR_WIDTH := BAR_WIDTH g;
             SPACE_BETWEEN_BARS := SPACE_BETWEEN_BARS g;
             VOLTS_MIN := to_uint (10 * atoi optarg); VOLTS_MAX := VOLTS_MAX g;
             VOLTS_STEP := VOLTS_STEP g; MAX_LINE_LENGTH := MAX_LINE_LENGTH g;
             FRAME_INTERVAL := FRAME_INTERVAL g; OUTPUT_FILE := OUTPUT_FILE g |},
          failure)
  | 5 => ({| SCREEN_HEIGHT := SCREEN_HEIGHT g;
             OFFSET_TOP := OFFSET_TOP g; BAR_WIDTH := BAR_WIDTH g;
             SPACE_BETWEEN_BARS := SPACE_BETWEEN_BARS g;
             VOLTS_MIN := VOLTS_MIN g; VOLTS_MAX := to_uint (10 * atoi optarg);
             VOLTS_STEP := VOLTS_STEP g; MAX_LINE_LENGTH := MAX_LINE_LENGTH g;
             FRAME_INTERVAL := FRAME_INTERVAL g; OUTPUT_FILE := OUTPUT_FILE g |},
          failure)
  | 6 => ({| SCREEN_HEIGHT := SCREEN_HEIGHT g;
             OFFSET_TOP := OFFSET_TOP g; BAR_WIDTH := BAR_WIDTH g;
             SPACE_BETWEEN_BARS := SPACE_BETWEEN_BARS g;
             VOLTS_MIN := VOLTS_MIN g; VOLTS_MAX := VOLTS_MAX g;
             VOLTS_STEP := VOLTS_STEP g;
             MAX_LINE_LENGTH := to_uint (atoi optarg);
             FRAME_INTERVAL := FRAME_INTERVAL g; OUTPUT_FILE := OUTPUT_FILE g |},
          failure)
  | 7 => ({| SCREEN_HEIGHT := SCREEN_HEIGHT g;
             OFFSET_TOP := OFFSET_TOP g; BAR_WIDTH := BAR_WIDTH g;
             SPACE_BETWEEN_BARS := SPACE_BETWEEN_BARS g;
             VOLTS_MIN := VOLTS_MIN g; VOLTS_MAX := VOLTS_MAX g;
             VOLTS_STEP := VOLTS_STEP g; MAX_LINE_LENGTH := MAX_LINE_LENGTH g;
             FRAME_INTERVAL := to_uint (1000 * atoi optarg);
             OUTPUT_FILE := OUTPUT_FILE g |},
          failure)
  | 8 => ({| SCREEN_HEIGHT := SCREEN_HEIGHT g;
             OFFSET_TOP := OFFSET_TOP g; BAR_WIDTH := BAR_WIDTH g;
             SPACE_BETWEEN_BARS := SPACE_BETWEEN_BARS g;
             VOLTS_MIN := VOLTS_MIN g; VOLTS_MAX := VOLTS_MAX g;
             VOLTS_STEP := VOLTS_STEP g; MAX_LINE_LENGTH := MAX_LINE_LENGTH g;
             FRAME_INTERVAL := FRAME_INTERVAL g; OUTPUT_FILE := Some optarg |},
          failure)
  | _ => (g, true)            (* case 9 (help), case '?', default *)
  end.

(** The [for (;;)] loop over the successive results of
    [getopt_long_only], up to its [-1]. *)
Fixpoint options_loop (opts : list (Z * string)) (st : globals * bool)
  : globals * bool :=
  match opts with
  | [] => st
  | (c, optarg) :: rest => options_loop rest (set_option c optarg st)
  end.

(** The two derived globals, computed at the end of [set_options]. *)
Definition derive (g : globals) : globals :=
  let offset_top := to_uint (SCREEN_HEIGHT g - 1) in
  {| SCREEN_HEIGHT := SCREEN_HEIGHT g;
     OFFSET_TOP := offset_top;
     BAR_WIDTH := BAR_WIDTH g;
     SPACE_BETWEEN_BARS := SPACE_BETWEEN_BARS g;
     VOLTS_MIN := VOLTS_MIN g; VOLTS_MAX := VOLTS_MAX g;
     VOLTS_STEP :=
       (Double.of_uint (to_uint (VOLTS_MAX g - VOLTS_MIN g))
        / Double.of_uint (to_uint (offset_top - OFFSET_BOTTOM)))%float;
     MAX_LINE_LENGTH := MAX_LINE_LENGTH g;
     FRAME_INTERVAL := FRAME_INTERVAL g; OUTPUT_FILE := OUTPUT_FILE g |}.

(** [set_options]: [None] is [print_help] followed by
    [exit (EXIT_FAILURE)]. *)
Definition set_options (opts : list (Z * string)) (g : globals)
  : option globals :=
  let (g', failure) := options_loop opts (g, false) in
  if failure then None else Some (derive g').

(** The denominator of [VOLTS_STEP], an [unsigned int]. *)
Definition step_denominator (g : globals) : Z :=
  to_uint (OFFSET_TOP g - OFFSET_BOTTOM).

(** The configuration of a run without options. *)
Definition default_globals : globals := derive initial_globals.

End Config.
Import Config.

(** ** Geometry and the bar renderer *)

Module Render.

(** What the renderer asks of curses. *)
Inductive screen_op : Type :=
| Mvaddch (y x : Z) (reverse : bool)   (* a blank, under [A_REVERSE] or not *)
| Mvprintw (y x : Z) (number : Z)      (* ["%2d"] *)
| Move (y x : Z)
| Refresh.

(** The parameters are [unsigned int], the result an [int]. *)
Definition bar_y (g : globals) (positions_up_from_bottom : Z) : Z :=
  CInt.to_int
    (to_uint (SCREEN_HEIGHT g - OFFSET_BOTTOM
              - to_uint positions_up_from_bottom)).

Definition bar_x (g : globals) (bar_position bar_width : Z) : Z :=
  CInt.to_int
    (to_uint (1 + OFFSET_LEFT
              + (SPACE_BETWEEN_BARS g + BAR_WIDTH g) * to_uint bar_position
              + to_uint bar_width)).

Definition move_cursor_to_bottom_line (g : globals) : screen_op :=
  Move (bar_y g (-2)) 0.

(** The values [0, 1, ..., n - 1] of a loop counter. *)
Definition count_up (n : Z) : list Z := map Z.of_nat (seq 0 (Z.to_nat n)).

Definition print_bottom_panel (g : globals) (battery_count : Z)
  : list screen_op :=
  map (fun i => Mvprintw (bar_y g (-1)) (bar_x g i 0) (i + 1))
      (count_up battery_count).

(** [round_to_int]: a half with the sign of [x] is added, and the sum is
    converted to [int]. *)
Definition round_to_int (x : float) : option Z :=
  let half := if PrimFloat.ltb 0%float x then 0.5%float else (-0.5)%float in
  Double.to_int (x + half)%float.

(** The two [if] statements at the head of the loop of
    [print_battery_bars].  [batteries[i]] is an [int] and the bounds are
    [unsigned int]: both comparisons are made on [unsigned int]. *)
Definition clamp (g : globals) (b : Z) : Z :=
  let b := if to_uint b <? VOLTS_MIN g then CInt.to_int (VOLTS_MIN g) else b in
  let b := if VOLTS_MAX g <? to_uint b then CInt.to_int (VOLTS_MAX g) else b in
  b.

(** [(batteries[i] - VOLTS_MIN) / VOLTS_STEP], for the clamped value: an
    [unsigned int] difference divided by a [double]. *)
Definition quotient (g : globals) (b : Z) : float :=
  (Double.of_uint (to_uint (to_uint b - VOLTS_MIN g)) / VOLTS_STEP g)%float.

(** The height of the bar of a reading: the rounded quotient. *)
Definition bar_height (g : globals) (reading : Z) : option Z :=
  round_to_int (quotient g (clamp g reading)).

(** [current = 1 + round_to_int (...)], an [int]. *)
Definition current_of (g : globals) (reading : Z) : option Z :=
  match bar_height g reading with
  | Some h => if 1 + h <=? INT_MAX then Some (1 + h) else None
  | None => None
  end.

(** The levels [j] painted in reverse video: [for (j = 0; j < current; j++)]. *)
Definition filled_levels (current : Z) : list Z := count_up current.

(** The levels blanked above the bar:
    [for (j = current; j <= OFFSET_TOP - OFFSET_BOTTOM; j++)], the test
    being made on [unsigned int].  From [0 <= current] the loop ends at the
    bound when an [int] can exceed it; from [current < 0] it ends at the
    last negative [j] whose [unsigned int] value is within the bound.  In
    the remaining cases [j] would have to overflow ([None]). *)
Definition blank_levels (g : globals) (current : Z) : option (list Z) :=
  let bound := step_denominator g in
  let from_current n := map (fun d => current + d) (count_up n) in
  if 0 <=? current then
    if bound <? INT_MAX then Some (from_current (bound + 1 - current))
    else None
  else
    if bound <? UINT_MOD - 1
    then Some (from_current (bound - UINT_MOD + 1 - current))
    else None.

(** The cells of one level of bar [i]: [for (k = 0; k < BAR_WIDTH; k++)],
    for a [BAR_WIDTH] that an [int] can reach. *)
Definition level_cells (g : globals) (i : Z) (reverse : bool) (j : Z)
  : list screen_op :=
  map (fun k => Mvaddch (bar_y g j) (bar_x g i k) reverse)
      (count_up (BAR_WIDTH g)).

(** The body of the loop over the batteries, for battery [i]: the value
    left in [batteries[i]] and the cells painted. *)
Definition print_bar (g : globals) (i : Z) (reading : Z)
  : option (Z * list screen_op) :=
  match current_of g reading with
  | None => None
  | Some current =>
      match blank_levels g current with
      | None => None
      | Some blanks =>
          Some (clamp g reading,
                flat_map (level_cells g i true) (filled_levels current)
                ++ flat_map (level_cells g i false) blanks)
      end
  end.

Fixpoint print_bars_from (g : globals) (i : Z) (batteries : list Z)
  : option (list Z * list screen_op) :=
  match batteries with
  | [] => Some ([], [])
  | b :: rest =>
      match print_bar g i b with
      | None => None
      | Some (b', ops) =>
          match print_bars_from g (i + 1) rest with
          | None => None
          | Some (rest', ops') => Some (b' :: rest', ops ++ ops')
          end
      end
  end.

(** [print_battery_bars (battery_size, batteries)]: the array after the
    call and the requests made; [None] when the behaviour is undefined. *)
Definition print_battery_bars (g : globals) (batteries : list Z)
  : option (list Z * list screen_op) :=
  match print_bars_from g 0 batteries with
  | None => None
  | Some (batteries', ops) =>
      Some (batteries', ops ++ [move_cursor_to_bottom_line g])
  end.

(** The height of the design, in exact arithmetic: the quotient of
    [v - volts_min] by [volts_step = (volts_max - volts_min) /
    (offset_top - offset_bottom)], rounded half away from zero. *)
Definition round_half_away_from_zero (q : Q) : Z :=
  if Qle_bool 0 q then Qfloor (q + (1 # 2)) else Qceiling (q - (1 # 2)).

Definition exact_quotient (g : globals) (v : Z) : Q :=
  (inject_Z (v - VOLTS_MIN g)
   / (inject_Z (VOLTS_MAX g - VOLTS_MIN g)
      / inject_Z (OFFSET_TOP g - OFFSET_BOTTOM)))%Q.

Definition exact_height (g : globals) (v : Z) : Z :=
  round_half_away_from_zero (exact_quotient g v).

End Render.
Import Render.

(** ** The read loop of [main] *)

Module Reader.

Definition NEWLINE : string := String LF EmptyString.

(** Why [fgets] returned NULL: [feof] holds, or it does not. *)
Inductive fgets_end : Type := AtEof | ReadError.

(** What one pass of the outer loop gets from the file system: [fopen]
    fails, or it succeeds and [fgets] fills [line] with each of [records]
    in turn and then returns NULL. *)
Inductive session : Type :=
| OpenFails
| Opened (records : list string) (ending : fgets_end).

Inductive event : Type :=
| Fopen                                     (* open_file (fileName, "r") *)
| Fclose                                    (* close_file (dataFile) *)
| Append (bytes : string)                   (* append_data_line *)
| Draw (batteries : list Z) (ops : list screen_op)
| Usleep (microseconds : Z).

Inductive outcome : Type :=
| LoopLeft        (* [break]: on to [getch] and [finish_screen] *)
| OpenFailed      (* [exit (EXIT_FAILURE)] in [open_file] *)
| Undefined       (* the behaviour of the C program is undefined *)
| StillLooping.   (* the sessions given are used up, the loop goes on *)

(** [append_data_line (outFile, line)] of a successful write: [fputs]
    then [fputc ('\n')]. *)
Definition append_data_line (line : string) : string :=
  (line ++ NEWLINE)%string.

(** The search of the closing [-1]: [batteries_size]. *)
Fixpoint batteries_size (voltages : list Z) : nat :=
  match voltages with
  | [] => 0
  | v :: rest => if v =? -1 then 0 else S (batteries_size rest)
  end.

(** The capacity of [int voltages[25]]. *)
Definition VOLTAGES_CAPACITY : nat := 25.

(** The body of [while (fgets (line, sizeof (line), dataFile))] for the
    record [raw] that [fgets] left in [line]: the events, and [false] when
    the behaviour becomes undefined after them ([read_voltages]
    dereferences NULL or stores past the end of [voltages], or the
    renderer is undefined).  Writes to the mirror file are taken to
    succeed. *)
Definition process_record (g : globals) (raw : string)
  : list event * bool :=
  let (valid, line) := is_valid_line raw in
  if valid then
    let mirror :=
      match OUTPUT_FILE g with
      | Some _ => [Append (append_data_line line)]
      | None => []
      end in
    match read_voltages line with
    | None => (mirror, false)
    | Some voltages =>
        if (VOLTAGES_CAPACITY <? List.length voltages)%nat
        then (mirror, false)
        else
          let size := batteries_size voltages in
          let batteries := firstn size voltages in
          match print_battery_bars g batteries with
          | None => (mirror, false)
          | Some (batteries', ops) =>
              (mirror
               ++ [Draw batteries'
                     (print_bottom_panel g (Z.of_nat size)
                      ++ ops ++ [Refresh])]
               ++ (if 0 <? FRAME_INTERVAL g
                   then [Usleep (FRAME_INTERVAL g)] else []),
               true)
          end
    end
  else ([], true).

(** The inner [while] loop over the records of one session. *)
Fixpoint read_records (g : globals) (records : list string)
  : list event * bool :=
  match records with
  | [] => ([], true)
  | raw :: rest =>
      let (evs, ok) := process_record g raw in
      if ok then
        let (evs', ok') := read_records g rest in (evs ++ evs', ok')
      else (evs, false)
  end.

(** The outer [for (;;)] loop of [main], one session per pass. *)
Fixpoint main_loop (g : globals) (world : list session)
  : list event * outcome :=
  match world with
  | [] => ([], StillLooping)
  | OpenFails :: _ => ([], OpenFailed)
  | Opened records ending :: world' =>
      match read_records g records with
      | (evs, false) => (Fopen :: evs, Undefined)
      | (evs, true) =>
          match ending with
          | AtEof => (Fopen :: evs ++ [Fclose], LoopLeft)   (* isEof: break *)
          | ReadError =>
              let (evs', out) := main_loop g world' in
              (Fopen :: evs ++ Fclose :: evs', out)
          end
      end
  end.

(** The readings drawn, frame by frame, and the number of [fopen]s. *)
Definition frames (evs : list event) : list (list Z) :=
  flat_map (fun e => match e with Draw b _ => [b] | _ => [] end) evs.

Definition appended (evs : list event) : list string :=
  flat_map (fun e => match e with Append s => [s] | _ => [] end) evs.

Definition opens (evs : list event) : nat :=
  List.length (filter (fun e => match e with Fopen => true | _ => false end) evs).

End Reader.
Import Reader.

(** * Vocabulary of the statements *)

(** ** Reading Sets, as the design describes them *)

(** The letters [a] to [z]. *)
Definition is_lowercase (c : ascii) : bool :=
  let n := nat_of_ascii c in (97 <=? n)%nat && (n <=? 122)%nat.

(** A record as [fgets] leaves it, with blanks and its line end. *)
Definition record_with_blanks : string :=
  String SP ("B,1 20,H" ++ String CR (String LF EmptyString))%string.

(** ** Validation, as the design describes it *)

(** The allowed set of the design, by character code: a digit, a capital
    letter or the comma. *)
Definition is_allowed (c : ascii) : bool :=
  let n := nat_of_ascii c in
  ((48 <=? n) && (n <=? 57) || (65 <=? n) && (n <=? 90) || (n =? 44))%nat.

(** The blank, the tab, the carriage return and the line feed, by
    character code. *)
Definition is_blank (c : ascii) : bool :=
  let n := nat_of_ascii c in
  ((n =? 32) || (n =? 9) || (n =? 13) || (n =? 10))%nat.

(** The contract of the design for a notion [white] of white space: strip
    the white space; Invalid when what remains is empty or holds a
    character outside the allowed set; otherwise the stripped text. *)
Definition design_validate (white : ascii -> bool) (raw : string)
  : option string :=
  let stripped := filter (fun c => negb (white c)) (chars raw) in
  match stripped with
  | [] => None
  | _ :: _ =>
      if forallb is_allowed stripped
      then Some (string_of_list_ascii stripped) else None
  end.

(** The record [B,1<VT>2,H]: a vertical tab inside a field. *)
Definition record_with_vertical_tab : string :=
  ("B,1" ++ String VT "2,H")%string.

(** The loop body applied to the tokens of a list, in order. *)
Definition run_tokens (ts : list string) (st : loop_state) : loop_state :=
  fold_left (fun st t => loop_body t st) ts st.

(** A token is a marker when it begins with [B] or with [H]. *)
Definition is_marker (t : string) : bool :=
  first_char_is "B" t || first_char_is "H" t.

(** The zone is open in front of a token when the nearest marker before
    it begins with [B]. *)
Definition zone_open (before : list string) : bool :=
  match find is_marker (rev before) with
  | Some m => first_char_is "B" m
  | None => false
  end.

(** Token [i] is extracted when the zone is open in front of it and it
    does not begin with [H]. *)
Definition extracted (ts : list string) (i : nat) : bool :=
  zone_open (firstn i ts) && negb (first_char_is "H" (nth i ts EmptyString)).

(** The Reading Set of a token list: the lenient values of the extracted
    tokens, in order. *)
Definition reading_set (ts : list string) : list Z :=
  map (fun i => atoi (nth i ts EmptyString))
      (filter (extracted ts) (seq 0 (List.length ts))).

(** ** What the configuration accepts, and some configurations *)

(** The options that [set_options] accepts: the values 1 to 8 of [c]. *)
Definition accepted_option (c : Z) : bool := (1 <=? c) && (c <=? 8).

(** The configuration of [--screen-height=17]. *)
Definition screen_17 : globals :=
  derive (fst (set_option 1 "17" (initial_globals, false))).

(** The configuration of [--volts-min=15]: [VOLTS_MIN = VOLTS_MAX = 150]. *)
Definition flat_range : globals :=
  derive (fst (set_option 4 "15" (initial_globals, false))).

(** The configuration of [--volts-min=20 --volts-max=10]: the bounds the
    wrong way round, [VOLTS_MIN = 200] and [VOLTS_MAX = 100]. *)
Definition inverted_range : globals :=
  derive (fst (set_option 5 "10" (set_option 4 "20" (initial_globals, false)))).

(** The configuration of [--output-file=mirror.txt]. *)
Definition mirroring : globals :=
  derive (fst (set_option 8 "mirror.txt" (initial_globals, false))).

(** ** Observations on bars and doubles *)

Definition is_reverse (op : screen_op) : bool :=
  match op with
  | Mvaddch _ _ reverse => reverse
  | _ => false
  end.

(** A double that is a number, finite or infinite, other than zero. *)
Definition is_nonzero_number (x : float) : bool :=
  match Prim2SF x with
  | S754_finite _ _ _ | S754_infinity _ => true
  | S754_zero _ | S754_nan => false
  end.

(** The height computed for a reading is the exact height of the design. *)
Definition height_agrees (g : globals) (v : Z) : bool :=
  match bar_height g v with
  | Some h => h =? exact_height g v
  | None => false
  end.

(** ** Sessions and records *)

(** A session that ends in a read error and whose records are all
    processed without undefined behaviour. *)
Definition read_error_session (g : globals) (s : session) : bool :=
  match s with
  | Opened records ReadError => snd (read_records g records)
  | _ => false
  end.

(** The events of one pass of the outer loop. *)
Definition session_events (g : globals) (s : session) : list event :=
  match s with
  | Opened records _ => Fopen :: fst (read_records g records) ++ [Fclose]
  | OpenFails => []
  end.

(** Records as [fgets] leaves them, line end included. *)
Definition spaced_record : string := ("B, 12,H" ++ NEWLINE)%string.
Definition record_100 : string := ("B,100,H" ++ NEWLINE)%string.
Definition record_120 : string := ("B,120,H" ++ NEWLINE)%string.

(** A record with 25 readings: 26 tokens. *)
Definition record_25_readings : string :=
  "B,1,2,3,4,5,6,7,8,9,0,1,2,3,4,5,6,7,8,9,0,1,2,3,4,5".

(** ** Fields of a line *)

(** The fields of a line: the text between its commas, empty fields
    included. *)
Fixpoint split_fields (s : string) : list string :=
  match s with
  | EmptyString => [EmptyString]
  | String c rest =>
      if Ascii.eqb c ","
      then EmptyString :: split_fields rest
      else match split_fields rest with
           | f :: fs => String c f :: fs
           | [] => [String c EmptyString]
           end
  end.

Definition nonempty (s : string) : bool :=
  match s with
  | EmptyString => false
  | String _ _ => true
  end.

(** The readings in front of the first [-1]: what the search of [main]
    for the end of [voltages] keeps of a Reading Set. *)
Fixpoint before_sentinel (readings : list Z) : list Z :=
  match readings with
  | [] => []
  | v :: rest => if v =? -1 then [] else v :: before_sentinel rest
  end.

(** ** Options *)

(** The argument of the last occurrence of the option [c]. *)
Fixpoint last_optarg (c : Z) (opts : list (Z * string)) : option string :=
  match opts with
  | [] => None
  | (c', optarg) :: rest =>
      match last_optarg c rest with
      | Some a => Some a
      | None => if c' =? c then Some optarg else None
      end
  end.

(** ** Signs of doubles *)

(** A double that is not negative: a zero, a number or an infinity with
    the sign bit clear, or not a number. *)
Definition not_negative (x : spec_float) : bool :=
  match x with
  | S754_zero s | S754_infinity s | S754_finite s _ _ => negb s
  | S754_nan => true
  end.

(** ** More observations on a run *)

Definition closes (evs : list event) : nat :=
  List.length (filter (fun e => match e with Fclose => true | _ => false end) evs).

(** The durations of the calls of [usleep], in order. *)
Definition sleeps (evs : list event) : list Z :=
  flat_map (fun e => match e with Usleep us => [us] | _ => [] end) evs.

(** What an accepted record adds to the mirror file. *)
Definition mirrored (raw : string) : list string :=
  match validate_and_normalize raw with
  | Some line => [append_data_line line]
  | None => []
  end.

(** The discipline of the source file along a trace: [fopen] only while
    the file is closed, [fclose] and every other event only while it is
    open.  The result is whether the file is open at the end; [None] when
    the discipline is broken. *)
Fixpoint file_discipline (is_open : bool) (evs : list event) : option bool :=
  match evs with
  | [] => Some is_open
  | Fopen :: rest => if is_open then None else file_discipline true rest
  | Fclose :: rest => if is_open then file_discipline false rest else None
  | _ :: rest => if is_open then file_discipline true rest else None
  end.

(** Whether an output file was asked for. *)
Definition mirrors (g : globals) : bool :=
  match OUTPUT_FILE g with
  | Some _ => true
  | None => false
  end.

(** The pace of a trace for an interval: a [usleep] occurs only as the
    event right after a frame, lasts [interval] microseconds, and is due
    after every frame when [interval] is positive and after none when it
    is zero; while it is due nothing else happens.  The result is whether
    a [usleep] is due at the end; [None] when the pace is broken. *)
Fixpoint pace (interval : Z) (due : bool) (evs : list event) : option bool :=
  match evs with
  | [] => Some due
  | Usleep us :: rest =>
      if due && (us =? interval) then pace interval false rest else None
  | Draw _ _ :: rest =>
      if due then None else pace interval (0 <? interval) rest
  | _ :: rest => if due then None else pace interval false rest
  end.

(** The place of the mirror file in a trace: with [mirror] set, a frame is
    drawn only as the event right after an [Append], and after an
    [Append] nothing happens but that frame; without, there is no
    [Append].  The result is whether a frame is due at the end; [None]
    when the order is broken. *)
Fixpoint mirror_order (mirror due : bool) (evs : list event) : option bool :=
  match evs with
  | [] => Some due
  | Append _ :: rest =>
      if mirror && negb due then mirror_order mirror true rest else None
  | Draw _ _ :: rest =>
      if Bool.eqb due mirror then mirror_order mirror false rest else None
  | _ :: rest => if due then None else mirror_order mirror false rest
  end.

(** ** The left panel *)

(** What [print_left_panel] asks of curses: a text, an axis label printed
    with ["%5.2f"], or the cursor. *)
Inductive panel_op : Type :=
| Text (y x : Z) (text : string)
| Label (y x : Z) (volts : float)
| Cursor (y x : Z).

(** The value printed beside level [i]:
    [(VOLTS_MIN + i * VOLTS_STEP) / 10.0]. *)
Definition label_volts (g : globals) (i : Z) : float :=
  ((Double.of_uint (VOLTS_MIN g) + Double.of_uint i * VOLTS_STEP g) / 10)%float.

(** The levels of the loop
    [for (i = 0; i <= OFFSET_TOP - OFFSET_BOTTOM; i += 2)]. *)
Definition even_levels (g : globals) : list Z :=
  map (fun n => 2 * n) (count_up (step_denominator g / 2 + 1)).

(** [print_left_panel]: the caption, a label on every second level from
    the baseline up, the caption of the battery numbers and the cursor.
    [None] when the bound lets [i += 2] overflow. *)
Definition print_left_panel (g : globals) : option (list panel_op) :=
  if step_denominator g <=? INT_MAX - 2 then
    Some (Text 0 (CInt.to_int (to_uint (OFFSET_LEFT - 6))) "Volts:"
          :: map (fun i => Label (bar_y g i)
                                 (CInt.to_int (to_uint (OFFSET_LEFT - 6)))
                                 (label_volts g i))
                 (even_levels g)
          ++ [Text (bar_y g (-1)) 1 "Battery:"; Cursor (bar_y g (-2)) 0])
  else None.

(** A double that is finite: a zero or a number. *)
Definition is_finite (x : float) : bool :=
  match Prim2SF x with
  | S754_zero _ | S754_finite _ _ _ => true
  | S754_infinity _ | S754_nan => false
  end.

(** * Properties of the record parser *)

(** ** Validation *)

Lemma strip_white_space_chars (line : string) :
  chars (strip_white_space line)
  = filter (fun c => negb (strchr WHITE_SPACE c)) (chars line).
Proof.
  induction line as [|c rest IH]; [reflexivity|].
  cbn [strip_white_space chars filter].
  destruct (strchr WHITE_SPACE c); cbn [negb chars]; [exact IH | now rewrite IH].
Qed.

Lemma check_allowed_true (tmp : string) :
  check_allowed tmp = true
  <-> forall c, In c (chars tmp) -> strchr ALLOWED_CHARS c = true.
Proof.
  induction tmp as [|a rest IH]; cbn [check_allowed chars In].
  - split; [intros _ c [] | reflexivity].
  - destruct (strchr ALLOWED_CHARS a) eqn:Ha.
    + rewrite IH. split.
      * intros H c [<-|Hc]; [exact Ha | now apply H].
      * intros H c Hc. apply H. now right.
    + split; [discriminate|].
      intros H. rewrite <- Ha. apply H. now left.
Qed.

Lemma check_allowed_false (tmp : string) :
  check_allowed tmp = false
  <-> exists c, In c (chars tmp) /\ strchr ALLOWED_CHARS c = false.
Proof.
  induction tmp as [|a rest IH]; cbn [check_allowed chars In].
  - split; [discriminate | intros (c & [] & _)].
  - destruct (strchr ALLOWED_CHARS a) eqn:Ha.
    + rewrite IH. split.
      * intros (c & Hc & Hn). exists c. auto.
      * intros (c & [<-|Hc] & Hn); [congruence | exists c; auto].
    + split; [|reflexivity]. intros _. exists a. auto.
Qed.

Lemma length_zero_empty (s : string) :
  Nat.eqb (String.length s) 0 = true <-> s = EmptyString.
Proof. destruct s; simpl; split; congruence. Qed.

Lemma strip_white_space_clean (s : string) :
  (forall c, In c (chars s) -> strchr WHITE_SPACE c = false) ->
  strip_white_space s = s.
Proof.
  induction s as [|a rest IH]; cbn [strip_white_space chars In]; intros H;
    [reflexivity|].
  rewrite (H a) by now left. f_equal. apply IH. intros c Hc. apply H. now right.
Qed.

Lemma allowed_not_white_space (c : ascii) :
  strchr ALLOWED_CHARS c = true -> strchr WHITE_SPACE c = false.
Proof.
  destruct c as [[|] [|] [|] [|] [|] [|] [|] [|]]; vm_compute; congruence.
Qed.

Lemma lowercase_rejected (c : ascii) :
  is_lowercase c = true ->
  strchr WHITE_SPACE c = false /\ strchr ALLOWED_CHARS c = false.
Proof.
  destruct c as [[|] [|] [|] [|] [|] [|] [|] [|]]; vm_compute;
    intros H; first [discriminate H | split; reflexivity].
Qed.

Lemma validate_accepts (raw s : string) :
  validate_and_normalize raw = Some s <->
  s = strip_white_space raw /\ s <> EmptyString /\ check_allowed s = true.
Proof.
  unfold validate_and_normalize, is_valid_line.
  destruct (check_allowed (strip_white_space raw)) eqn:Hc;
    destruct (strip_white_space raw) as [|a t] eqn:Hs; simpl;
    (split; [intros H; try discriminate H | intros (-> & Hne & Hok)]);
    try congruence.
  injection H as <-. repeat split; congruence.
Qed.

Lemma validate_rejects (raw : string) :
  validate_and_normalize raw = None <->
  strip_white_space raw = EmptyString
  \/ check_allowed (strip_white_space raw) = false.
Proof.
  unfold validate_and_normalize, is_valid_line.
  destruct (check_allowed (strip_white_space raw)) eqn:Hc;
    destruct (strip_white_space raw) as [|a t] eqn:Hs; simpl;
    split; intros H; try discriminate H; auto.
  destruct H as [H|H]; discriminate H.
Qed.

Lemma white_space_is_blank (c : ascii) : strchr WHITE_SPACE c = is_blank c.
Proof. destruct c as [[|] [|] [|] [|] [|] [|] [|] [|]]; reflexivity. Qed.

Lemma allowed_chars_is_allowed (c : ascii) :
  strchr ALLOWED_CHARS c = is_allowed c.
Proof. destruct c as [[|] [|] [|] [|] [|] [|] [|] [|]]; reflexivity. Qed.

Lemma strip_white_space_blanks (raw : string) :
  chars (strip_white_space raw)
  = filter (fun c => negb (is_blank c)) (chars raw).
Proof.
  rewrite strip_white_space_chars. apply filter_ext.
  intros c. now rewrite white_space_is_blank.
Qed.

Lemma check_allowed_forallb (tmp : string) :
  check_allowed tmp = forallb is_allowed (chars tmp).
Proof.
  induction tmp as [|a rest IH]; [reflexivity|].
  cbn [check_allowed chars forallb]. rewrite allowed_chars_is_allowed, IH.
  now destruct (is_allowed a).
Qed.

Lemma string_of_chars (s : string) : string_of_list_ascii (chars s) = s.
Proof. induction s as [|a rest IH]; [reflexivity|]. cbn. now rewrite IH. Qed.

Lemma validate_unfold (raw : string) :
  validate_and_normalize raw
  = match strip_white_space raw with
    | EmptyString => None
    | String _ _ =>
        if check_allowed (strip_white_space raw)
        then Some (strip_white_space raw) else None
    end.
Proof.
  unfold validate_and_normalize, is_valid_line.
  destruct (strip_white_space raw) as [|a t]; cbn [String.length Nat.eqb negb];
    now destruct (check_allowed _).
Qed.

(** C6 fails for the white space that the code does not know.  The code
    strips the characters of [" \t\r\n"] only: a vertical tab, white space
    for [isspace], stays in the record [B,1<VT>2,H] and makes it Invalid,
    where the contract that strips all white space returns [B,12,H]. *)
Lemma validate_keeps_vertical_tab :
  isspace VT = true
  /\ strip_white_space record_with_vertical_tab = record_with_vertical_tab
  /\ design_validate isspace record_with_vertical_tab = Some "B,12,H"%string
  /\ validate_and_normalize record_with_vertical_tab = None.
Proof. repeat split; vm_compute; reflexivity. Qed.

(** C6, as the code has it.  [is_valid_line], read as
    [validate_and_normalize], is the contract of the design with the
    blank, the tab, the carriage return and the line feed for white space:
    it strips these four characters and no other, rejects the line exactly
    when what remains is empty or holds a character that is not a digit, a
    capital letter or a comma, and returns an accepted line stripped.  A
    line with a lowercase letter is rejected wherever its blanks lie, and
    so is a line with any other white space of [isspace], a vertical tab
    or a form feed. *)
Theorem validate_and_normalize_spec (raw : string) :
  validate_and_normalize raw = design_validate is_blank raw
  /\ (validate_and_normalize raw = None <->
      filter (fun c => negb (is_blank c)) (chars raw) = []
      \/ exists c, In c (chars raw) /\ is_blank c = false
                   /\ is_allowed c = false)
  /\ (forall s, validate_and_normalize raw = Some s ->
        chars s = filter (fun c => negb (is_blank c)) (chars raw))
  /\ (forall c, In c (chars raw) -> is_lowercase c = true ->
        validate_and_normalize raw = None)
  /\ (forall c, In c (chars raw) -> isspace c = true -> is_blank c = false ->
        validate_and_normalize raw = None).
Proof.
  assert (Heq : validate_and_normalize raw = design_validate is_blank raw).
  { rewrite validate_unfold. unfold design_validate.
    rewrite <- strip_white_space_blanks, check_allowed_forallb.
    rewrite string_of_chars. now destruct (strip_white_space raw). }
  assert (Hbad : forall c, In c (chars raw) -> is_blank c = false ->
                 is_allowed c = false -> validate_and_normalize raw = None).
  { intros c Hin Hw Ha. apply validate_rejects. right.
    apply check_allowed_false. exists c.
    rewrite allowed_chars_is_allowed. split; [|exact Ha].
    rewrite strip_white_space_blanks. apply filter_In. now rewrite Hw. }
  split; [exact Heq|]. split; [|split; [|split]].
  - rewrite validate_rejects, check_allowed_false, <- strip_white_space_blanks.
    split.
    + intros [He|(c & Hc & Ha)]; [left; now rewrite He|]. right.
      rewrite strip_white_space_blanks in Hc. apply filter_In in Hc.
      destruct Hc as [Hc Hb]. exists c. rewrite <- allowed_chars_is_allowed.
      repeat split; [exact Hc | now destruct (is_blank c) | exact Ha].
    + intros [He|(c & Hc & Hb & Ha)].
      * left. now destruct (strip_white_space raw).
      * right. exists c. rewrite allowed_chars_is_allowed. split; [|exact Ha].
        rewrite strip_white_space_blanks. apply filter_In. now rewrite Hb.
  - intros s H. apply validate_accepts in H. destruct H as (-> & _).
    apply strip_white_space_blanks.
  - intros c Hin Hl. destruct (lowercase_rejected c Hl) as [Hw Ha].
    rewrite white_space_is_blank in Hw. rewrite allowed_chars_is_allowed in Ha.
    eauto.
  - intros c Hin Hs Hb. apply (Hbad c Hin Hb).
    revert Hs Hb. destruct c as [[|] [|] [|] [|] [|] [|] [|] [|]]; vm_compute;
      congruence.
Qed.

(** C9.  [validate_and_normalize] is idempotent: a line it returns is
    accepted again and returned unchanged. *)
Theorem validate_and_normalize_idempotent (r s : string) :
  validate_and_normalize r = Some s -> validate_and_normalize s = Some s.
Proof.
  intros H. apply validate_accepts in H. destruct H as (Hs & Hne & Hok).
  apply validate_accepts. split; [|split; assumption].
  symmetry. apply strip_white_space_clean.
  intros c Hc. apply allowed_not_white_space.
  now apply (proj1 (check_allowed_true s) Hok).
Qed.

Lemma validate_and_normalize_idempotent_witness :
  validate_and_normalize record_with_blanks = Some "B,120,H"%string
  /\ validate_and_normalize "B,120,H" = Some "B,120,H"%string.
Proof.
  split; [reflexivity|].
  apply (validate_and_normalize_idempotent record_with_blanks).
  reflexivity.
Defined.

(** ** Extraction of the readings *)

Lemma tokens_unfold (save : string) :
  tokens save
  = match strtok save "," with
    | Some (token, save') => token :: tokens save'
    | None => []
    end.
Proof. funelim (tokens save); rewrite e; reflexivity. Qed.

Lemma do_while_unfold (token save : string) (st : loop_state) :
  do_while token save st
  = match strtok save "," with
    | Some (token', save') => do_while token' save' (loop_body token st)
    | None => loop_body token st
    end.
Proof. funelim (do_while token save st); rewrite e; reflexivity. Qed.

Lemma do_while_tokens (token save : string) (st : loop_state) :
  do_while token save st = run_tokens (token :: tokens save) st.
Proof.
  remember (String.length save) as n eqn:Hn.
  revert token save st Hn.
  induction n as [n IH] using lt_wf_ind. intros token save st ->.
  rewrite do_while_unfold, (tokens_unfold save).
  destruct (strtok save ",") as [[token' save']|] eqn:E; [|reflexivity].
  rewrite (IH _ (strtok_shorter _ _ _ _ E) token' save' _ eq_refl).
  reflexivity.
Qed.

Lemma read_voltages_tokens (line : string) :
  read_voltages line
  = match tokens line with
    | [] => None
    | ts => Some (snd (run_tokens ts (false, [])) ++ [-1])
    end.
Proof.
  unfold read_voltages. rewrite (tokens_unfold line).
  destruct (strtok line ",") as [[token save]|]; [|reflexivity].
  now rewrite do_while_tokens.
Qed.

Lemma first_char_B_not_H (t : string) :
  first_char_is "B" t = true -> first_char_is "H" t = false.
Proof.
  destruct t as [|a t]; simpl; [discriminate|].
  destruct (Ascii.eqb_spec a "B"); [subst; reflexivity | discriminate].
Qed.

Lemma zone_open_snoc (pre : list string) (t : string) :
  zone_open (pre ++ [t])
  = if is_marker t then first_char_is "B" t else zone_open pre.
Proof.
  unfold zone_open. rewrite rev_app_distr. simpl.
  destruct (is_marker t); reflexivity.
Qed.

Lemma loop_body_zone (pre : list string) (t : string) (stored : list Z) :
  loop_body t (zone_open pre, stored)
  = (zone_open (pre ++ [t]),
     stored ++ (if zone_open pre && negb (first_char_is "H" t)
                then [atoi t] else [])).
Proof.
  rewrite zone_open_snoc. unfold loop_body, is_marker.
  destruct (first_char_is "B" t) eqn:HB.
  - rewrite (first_char_B_not_H t HB). simpl.
    destruct (zone_open pre); simpl; now rewrite ?app_nil_r.
  - destruct (first_char_is "H" t); simpl.
    + now rewrite andb_false_r, app_nil_r.
    + destruct (zone_open pre); simpl; now rewrite ?app_nil_r.
Qed.

Lemma run_tokens_from (ts pre : list string) (stored : list Z) :
  snd (run_tokens ts (zone_open pre, stored))
  = stored
    ++ map (fun i => atoi (nth i (pre ++ ts) EmptyString))
         (filter (extracted (pre ++ ts))
                 (seq (List.length pre) (List.length ts))).
Proof.
  revert pre stored.
  induction ts as [|t rest IH]; intros pre stored.
  - simpl. now rewrite app_nil_r.
  - unfold run_tokens. cbn [fold_left]. fold (run_tokens rest).
    rewrite loop_body_zone, IH.
    rewrite <- app_assoc. cbn [app]. rewrite <- app_assoc. f_equal.
    rewrite length_app. cbn [List.length seq filter].
    replace (List.length pre + 1)%nat with (S (List.length pre)) by lia.
    unfold extracted at 2.
    rewrite firstn_app, Nat.sub_diag, firstn_all. cbn [firstn].
    rewrite app_nil_r, app_nth2, Nat.sub_diag by lia. cbn [nth].
    destruct (zone_open pre && negb (first_char_is "H" t)).
    + cbn [map app]. now rewrite app_nth2, Nat.sub_diag by lia.
    + reflexivity.
Qed.

Lemma run_tokens_reading_set (ts : list string) :
  snd (run_tokens ts (false, [])) = reading_set ts.
Proof. exact (run_tokens_from ts [] []). Qed.

Lemma zone_open_without_B (ts : list string) :
  (forall t, In t ts -> first_char_is "B" t = false) -> zone_open ts = false.
Proof.
  intros H. unfold zone_open.
  destruct (find is_marker (rev ts)) as [m|] eqn:E; [|reflexivity].
  apply find_some in E. apply H. apply in_rev. tauto.
Qed.

Lemma In_firstn {A} (n : nat) (l : list A) (x : A) :
  In x (firstn n l) -> In x l.
Proof.
  revert l. induction n as [|n IH]; intros [|a l]; simpl; try tauto.
  intros [H|H]; [now left | right; now apply IH].
Qed.

Lemma filter_none {A} (f : A -> bool) (l : list A) :
  (forall x, In x l -> f x = false) -> filter f l = [].
Proof.
  induction l as [|a l IH]; simpl; intros H; [reflexivity|].
  rewrite (H a) by now left. apply IH. intros x Hx. apply H. now right.
Qed.

Lemma reading_set_without_B (ts : list string) :
  (forall t, In t ts -> first_char_is "B" t = false) -> reading_set ts = [].
Proof.
  intros H. unfold reading_set. rewrite filter_none; [reflexivity|].
  intros i _. unfold extracted.
  rewrite zone_open_without_B; [reflexivity|].
  intros t Ht. apply H. now apply In_firstn in Ht.
Qed.

(** [strtok] skips the empty fields: no token is empty. *)
Lemma tokens_nonempty (line t : string) :
  In t (tokens line) -> t <> EmptyString.
Proof.
  remember (String.length line) as n eqn:Hn. revert line Hn.
  induction n as [n IH] using lt_wf_ind. intros line ->.
  rewrite (tokens_unfold line).
  destruct (strtok line ",") as [[token save]|] eqn:E; [|intros []].
  intros [<-|Hin].
  - exact (strtok_nonempty _ _ _ _ E).
  - exact (IH _ (strtok_shorter _ _ _ _ E) save eq_refl Hin).
Qed.

(** C3, as the code has it.  For a normalized record with at least one
    token, [read_voltages] stores the Reading Set of the tokens that
    [strtok] splits off at [','] and closes it with [-1]: a token is
    extracted, by a lenient [atoi], exactly when the nearest marker before
    it begins with [B] and the token itself does not begin with [H].  So a
    token beginning with [H] is never extracted and closes the zone, the
    [B] token that opens a zone is not extracted, and a [B] token met
    inside an open zone is.  ["X,B,10,20,H,Y,30"] gives [10, 20], and a
    record without a [B] token gives the empty Reading Set. *)
Theorem read_voltages_reading_set (line : string) :
  tokens line <> [] ->
  read_voltages line = Some (reading_set (tokens line) ++ [-1])
  /\ (forall t, In t (tokens line) -> t <> EmptyString)
  /\ (forall i, extracted (tokens line) i = true ->
        first_char_is "H" (nth i (tokens line) EmptyString) = false)
  /\ ((forall t, In t (tokens line) -> first_char_is "B" t = false) ->
      reading_set (tokens line) = [])
  /\ read_voltages "X,B,10,20,H,Y,30" = Some ([10; 20] ++ [-1]).
Proof.
  intros Hne. split; [|split; [|split; [|split]]].
  - rewrite read_voltages_tokens.
    destruct (tokens line) as [|t ts] eqn:E; [contradiction|].
    now rewrite run_tokens_reading_set.
  - apply tokens_nonempty.
  - intros i H. unfold extracted in H. apply andb_true_iff in H.
    now apply negb_true_iff.
  - apply reading_set_without_B.
  - reflexivity.
Qed.

Lemma read_voltages_reading_set_witness :
  tokens "A,B1,7,C2,H,9" <> []
  /\ read_voltages "A,B1,7,C2,H,9" = Some ([7; 0] ++ [-1]).
Proof.
  assert (Hne : tokens "A,B1,7,C2,H,9" <> []) by (vm_compute; discriminate).
  split; [exact Hne|].
  exact (proj1 (read_voltages_reading_set "A,B1,7,C2,H,9" Hne)).
Defined.

(** A token beginning with [B] and met inside an open zone is extracted:
    the record ["B,B,5"] gives two readings, although only one of its
    tokens is not a marker.  And the normalized record [","], which has no
    token at all, gives no Reading Set. *)
Lemma read_voltages_extracts_B_in_zone :
  read_voltages "B,B,5" = Some ([0; 5] ++ [-1])
  /\ map atoi (filter (fun t => negb (is_marker t)) (tokens "B,B,5")) = [5]
  /\ extracted (tokens "B,B,5") 1 = true
  /\ first_char_is "B" (nth 1 (tokens "B,B,5") EmptyString) = true
  /\ validate_and_normalize "," = Some ","%string
  /\ read_voltages "," = None.
Proof. repeat split; reflexivity. Qed.

(** C10, at the record [","].  The line is accepted by the validation,
    [strtok] finds no token in it, and [read_voltages] reads [*token]
    through the NULL pointer; the run of [main] on such a record is
    undefined. *)
Theorem read_voltages_null_token :
  validate_and_normalize "," = Some ","%string
  /\ strtok "," "," = None
  /\ tokens "," = []
  /\ read_voltages "," = None
  /\ main_loop default_globals [Opened [","%string] AtEof] = ([Fopen], Undefined).
Proof. repeat split; reflexivity. Qed.

(** [read_voltages] is undefined exactly for the lines without a token. *)
Lemma read_voltages_undefined_iff (line : string) :
  read_voltages line = None <-> tokens line = [].
Proof.
  rewrite read_voltages_tokens.
  destruct (tokens line); split; congruence.
Qed.

(** * Properties of the configuration *)

(** Case analysis on the value of [c], as far as the [switch] looks. *)
Ltac switch_cases c :=
  let p := fresh "p" in
  destruct c as [|p|p];
  try (destruct p as [p|p|];
       try (destruct p as [p|p|];
            try (destruct p as [p|p|]; try (destruct p as [p|p|])))).

Lemma set_option_failure (c : Z) (optarg : string) (st : globals * bool) :
  snd (set_option c optarg st) = snd st || negb (accepted_option c).
Proof.
  destruct st as [g f]. unfold accepted_option.
  switch_cases c; simpl; now rewrite ?orb_true_r, ?orb_false_r.
Qed.

Lemma options_loop_failure (opts : list (Z * string)) (st : globals * bool) :
  snd (options_loop opts st)
  = snd st || existsb (fun o => negb (accepted_option (fst o))) opts.
Proof.
  revert st. induction opts as [|[c optarg] rest IH]; intros st; simpl.
  - now rewrite orb_false_r.
  - rewrite IH, set_option_failure. now rewrite orb_assoc.
Qed.

Lemma set_option_screen_height (c : Z) (optarg : string) (st : globals * bool) :
  is_uint (SCREEN_HEIGHT (fst st)) ->
  is_uint (SCREEN_HEIGHT (fst (set_option c optarg st))).
Proof.
  destruct st as [g f]. intros H.
  switch_cases c; simpl; first [exact H | apply to_uint_range].
Qed.

Lemma options_loop_screen_height (opts : list (Z * string)) (st : globals * bool) :
  is_uint (SCREEN_HEIGHT (fst st)) ->
  is_uint (SCREEN_HEIGHT (fst (options_loop opts st))).
Proof.
  revert st. induction opts as [|[c optarg] rest IH]; intros st H; simpl.
  - exact H.
  - apply IH. now apply set_option_screen_height.
Qed.

Lemma set_options_rejects (opts : list (Z * string)) (g0 : globals) :
  set_options opts g0 = None
  <-> exists c optarg, In (c, optarg) opts /\ accepted_option c = false.
Proof.
  unfold set_options.
  pose proof (options_loop_failure opts (g0, false)) as Hf.
  destruct (options_loop opts (g0, false)) as [g f]. simpl in Hf. subst f.
  destruct (existsb _ opts) eqn:E.
  - split; [intros _ | reflexivity].
    apply existsb_exists in E. destruct E as ([c optarg] & Hin & Hc).
    exists c, optarg. split; [exact Hin|]. now apply negb_true_iff in Hc.
  - split; [discriminate|]. intros (c & optarg & Hin & Hc).
    assert (existsb (fun o => negb (accepted_option (fst o))) opts = true);
      [|congruence].
    apply existsb_exists. exists (c, optarg). simpl. now rewrite Hc.
Qed.

(** C5, as the code has it.  [set_options] fails only for [--help] or an
    option it does not know; it compares nothing with [OFFSET_BOTTOM].  In
    every other run it computes the derived values, whatever the screen
    height: [OFFSET_TOP] is [SCREEN_HEIGHT - 1] modulo 2^32 and
    [VOLTS_STEP] is the double quotient by the [unsigned int] difference
    [OFFSET_TOP - OFFSET_BOTTOM].  That denominator is never negative; it
    is zero exactly for a screen height of 4, and for a smaller height it
    wraps around to a value near 2^32.  The configurations with
    [OFFSET_TOP <= OFFSET_BOTTOM] are those of heights 1 to 4. *)
Theorem set_options_derived_values (opts : list (Z * string)) :
  (set_options opts initial_globals = None
   <-> exists c optarg, In (c, optarg) opts /\ accepted_option c = false)
  /\ forall g, set_options opts initial_globals = Some g ->
       OFFSET_TOP g = to_uint (SCREEN_HEIGHT g - 1)
       /\ VOLTS_STEP g
          = (Double.of_uint (to_uint (VOLTS_MAX g - VOLTS_MIN g))
             / Double.of_uint (step_denominator g))%float
       /\ 0 <= step_denominator g < UINT_MOD
       /\ (step_denominator g = 0 <-> SCREEN_HEIGHT g = 4)
       /\ (OFFSET_TOP g <= OFFSET_BOTTOM <-> 1 <= SCREEN_HEIGHT g <= 4)
       /\ (SCREEN_HEIGHT g <= 3 ->
           step_denominator g = UINT_MOD - 4 + SCREEN_HEIGHT g).
Proof.
  split; [apply set_options_rejects|].
  intros g. unfold set_options.
  pose proof (options_loop_screen_height opts (initial_globals, false)) as Hs.
  destruct (options_loop opts (initial_globals, false)) as [g' f].
  destruct f; [discriminate|]. intros H. injection H as <-.
  assert (Hh : is_uint (SCREEN_HEIGHT g')).
  { apply Hs. unfold is_uint, UINT_MOD. simpl. lia. }
  clear Hs. unfold step_denominator, derive, is_uint in *.
  cbn [OFFSET_TOP SCREEN_HEIGHT VOLTS_STEP VOLTS_MAX VOLTS_MIN].
  set (h := SCREEN_HEIGHT g') in *.
  split; [reflexivity|]. split; [reflexivity|].
  split; [apply to_uint_range|].
  unfold OFFSET_BOTTOM, UINT_MOD in *.
  destruct (Z.eq_dec h 0) as [->|Hz].
  - rewrite (to_uint_neg (0 - 1)) by (unfold UINT_MOD; lia).
    rewrite to_uint_small by (unfold UINT_MOD; lia).
    unfold UINT_MOD. repeat split; intros; lia.
  - rewrite (to_uint_small (h - 1)) by (unfold UINT_MOD; lia).
    destruct (Z_lt_le_dec h 4) as [Hlt|Hge].
    + rewrite to_uint_neg by (unfold UINT_MOD; lia).
      unfold UINT_MOD. repeat split; intros; lia.
    + rewrite to_uint_small by (unfold UINT_MOD; lia).
      repeat split; intros; lia.
Qed.

(** Screen heights of 3 and 4 lines are accepted: the first leaves
    [OFFSET_TOP = 2 <= OFFSET_BOTTOM] and a denominator of 2^32 - 1, the
    second a denominator of zero and an infinite [VOLTS_STEP]. *)
Lemma set_options_accepts_low_screen :
  option_map (fun g => (OFFSET_TOP g, step_denominator g))
             (set_options [(1, "3"%string)] initial_globals)
  = Some (2, 4294967295)
  /\ option_map (fun g => (OFFSET_TOP g, step_denominator g, VOLTS_STEP g))
                (set_options [(1, "4"%string)] initial_globals)
     = Some (3, 0, infinity)
  /\ OFFSET_BOTTOM = 3.
Proof. repeat split; vm_compute; reflexivity. Qed.

(** * Properties of the bar renderer *)

(** The geometry of the default configuration: bar 1 starts in column 17,
    the baseline is line 21 and the status line is line 23. *)
Example default_geometry :
  bar_x default_globals 1 0 = 17
  /\ bar_y default_globals 0 = 21
  /\ move_cursor_to_bottom_line default_globals = Move 23 0
  /\ is_nonzero_number (VOLTS_STEP default_globals) = true.
Proof. repeat split; vm_compute; reflexivity. Qed.

(** ** Clamping *)

(** A negative [int] converts to an [unsigned int] of 2^31 or more. *)
Lemma to_uint_negative (v : Z) :
  INT_MIN <= v < 0 -> 2 ^ 31 <= to_uint v < 2 ^ 32.
Proof.
  intros Hv. unfold INT_MIN in Hv.
  rewrite to_uint_neg by (unfold UINT_MOD; lia). unfold UINT_MOD. lia.
Qed.

(** A reading whose [unsigned int] value exceeds both bounds is replaced
    by [VOLTS_MAX]. *)
Lemma clamp_above_max (g : globals) (v : Z) :
  VOLTS_MIN g <= to_uint v -> VOLTS_MAX g < to_uint v ->
  clamp g v = CInt.to_int (VOLTS_MAX g).
Proof.
  intros Hmin Hmax. unfold clamp.
  destruct (Z.ltb_spec (to_uint v) (VOLTS_MIN g)); [lia|].
  destruct (Z.ltb_spec (VOLTS_MAX g) (to_uint v)); [reflexivity | lia].
Qed.

Section Clamp.

Variable g : globals.
Hypothesis min_le_max : 0 <= VOLTS_MIN g <= VOLTS_MAX g.
Hypothesis max_is_int : VOLTS_MAX g <= INT_MAX.

(** A reading that is not negative is clamped into
    [[VOLTS_MIN, VOLTS_MAX]]. *)
Lemma clamp_nonnegative (v : Z) :
  0 <= v <= INT_MAX ->
  clamp g v = Z.max (VOLTS_MIN g) (Z.min v (VOLTS_MAX g)).
Proof.
  intros Hv. unfold clamp, INT_MAX in *.
  rewrite (to_uint_small v) by (unfold UINT_MOD; lia).
  destruct (Z.ltb_spec v (VOLTS_MIN g)).
  - rewrite to_int_small by (unfold INT_MAX; lia).
    rewrite to_uint_small by (unfold UINT_MOD; lia).
    destruct (Z.ltb_spec (VOLTS_MAX g) (VOLTS_MIN g)); lia.
  - rewrite to_uint_small by (unfold UINT_MOD; lia).
    destruct (Z.ltb_spec (VOLTS_MAX g) v).
    + rewrite to_int_small by (unfold INT_MAX; lia). lia.
    + lia.
Qed.

(** C2, where the code departs from it.  The comparisons of
    [print_battery_bars] are made on [unsigned int], so a negative reading
    counts as a value of 2^31 or more: it passes the test against
    [VOLTS_MIN] and is lowered to [VOLTS_MAX]. *)
Theorem clamp_negative (v : Z) :
  INT_MIN <= v < 0 -> clamp g v = VOLTS_MAX g.
Proof.
  intros Hv. pose proof (to_uint_negative v Hv) as Hu.
  unfold INT_MAX in *.
  rewrite clamp_above_max by lia.
  apply to_int_small. unfold INT_MAX. lia.
Qed.

End Clamp.

Lemma clamp_negative_witness :
  -1 < VOLTS_MIN default_globals /\ clamp default_globals (-1) = 150.
Proof.
  split; [reflexivity|].
  apply (clamp_negative default_globals); vm_compute; intuition discriminate.
Defined.

(** A negative reading reaches the renderer when [atoi] wraps around: the
    field [4294967290] is read as [-6] and drawn as [VOLTS_MAX]. *)
Lemma negative_reading_from_record :
  atoi "4294967290" = -6
  /\ read_voltages "B,4294967290,H" = Some ([-6] ++ [-1])
  /\ frames (fst (process_record default_globals "B,4294967290,H")) = [[150]].
Proof. repeat split; vm_compute; reflexivity. Qed.

(** ** Heights *)

Lemma In_count_up (n j : Z) : In j (count_up n) <-> 0 <= j < n.
Proof.
  unfold count_up. rewrite in_map_iff. split.
  - intros (k & <- & Hk). apply in_seq in Hk. lia.
  - intros H. exists (Z.to_nat j). split; [lia|]. apply in_seq. lia.
Qed.

Lemma count_up_length (n : Z) : List.length (count_up n) = Z.to_nat n.
Proof. unfold count_up. now rewrite length_map, length_seq. Qed.

Lemma filter_one_level (g : globals) (i : Z) (reverse : bool) (j : Z) :
  filter is_reverse (level_cells g i reverse j)
  = if reverse then level_cells g i reverse j else [].
Proof.
  unfold level_cells.
  induction (count_up (BAR_WIDTH g)) as [|k ks IH]; simpl;
    destruct reverse; simpl in *; congruence.
Qed.

Lemma filter_level_cells (g : globals) (i : Z) (reverse : bool) (js : list Z) :
  filter is_reverse (flat_map (level_cells g i reverse) js)
  = if reverse then flat_map (level_cells g i reverse) js else [].
Proof.
  induction js as [|j js IH]; simpl; [now destruct reverse|].
  rewrite filter_app, IH, filter_one_level. now destruct reverse.
Qed.

(** The cells that [print_bar] paints in reverse video are those of the
    levels [0, ..., height]. *)
Lemma print_bar_filled (g : globals) (i v b : Z) (ops : list screen_op) :
  print_bar g i v = Some (b, ops) ->
  exists h, bar_height g v = Some h
            /\ b = clamp g v
            /\ filter is_reverse ops
               = flat_map (level_cells g i true) (filled_levels (h + 1)).
Proof.
  unfold print_bar, current_of.
  destruct (bar_height g v) as [h|]; [|discriminate].
  destruct (1 + h <=? INT_MAX); [|discriminate].
  destruct (blank_levels g (1 + h)) as [blanks|]; [|discriminate].
  intros H. injection H as <- <-. exists h.
  split; [reflexivity|]. split; [reflexivity|].
  rewrite filter_app, !filter_level_cells, app_nil_r.
  now rewrite Z.add_comm.
Qed.

(** The quotient of zero by a step that is a number other than zero has
    height 0. *)
Lemma round_zero_quotient (s : float) :
  is_nonzero_number s = true ->
  round_to_int (Double.of_uint 0 / s)%float = Some 0.
Proof.
  unfold is_nonzero_number. intros Hs.
  assert (Hx : Prim2SF (Double.of_uint 0 / s)%float = S754_zero false
               \/ Prim2SF (Double.of_uint 0 / s)%float = S754_zero true).
  { rewrite FloatAxioms.div_spec.
    change (Prim2SF (Double.of_uint 0)) with (S754_zero false).
    destruct (Prim2SF s) as [b|b| |b m e]; try discriminate Hs;
      destruct b; simpl; auto. }
  assert (Hz : (Double.of_uint 0 / s)%float = 0%float
               \/ (Double.of_uint 0 / s)%float = (-0)%float).
  { destruct Hx as [Hx|Hx]; [left | right];
      rewrite <- (SF2Prim_Prim2SF (Double.of_uint 0 / s)%float), Hx;
      reflexivity. }
  destruct Hz as [-> | ->]; reflexivity.
Qed.

(** The height depends on the reading through its clamped value only. *)
Lemma bar_height_of_clamped (g : globals) (v c : Z) :
  clamp g v = c -> clamp g c = c -> bar_height g v = bar_height g c.
Proof. unfold bar_height. intros -> ->. reflexivity. Qed.

(** In the default configuration (80 to 150 tenths of a volt on 24 lines)
    the height of every clamped reading is the exact quotient rounded half
    away from zero. *)
Lemma default_heights_table :
  forallb (fun d => height_agrees default_globals (80 + d)) (count_up 71)
  = true.
Proof. vm_compute. reflexivity. Qed.

Lemma default_heights_exact (v : Z) :
  80 <= v <= 150 ->
  bar_height default_globals v = Some (exact_height default_globals v).
Proof.
  intros Hv.
  pose proof (proj1 (forallb_forall _ _) default_heights_table (v - 80)
                (proj2 (In_count_up 71 (v - 80)) ltac:(lia))) as H.
  cbv beta in H. replace (80 + (v - 80)) with v in H by lia.
  unfold height_agrees in H.
  destruct (bar_height default_globals v) as [h|]; [|discriminate].
  apply Z.eqb_eq in H. now subst.
Qed.

Lemma default_heights_sorted :
  forallb (fun d =>
    match bar_height default_globals (80 + d),
          bar_height default_globals (80 + d + 1) with
    | Some h, Some h' => h <=? h'
    | _, _ => false
    end) (count_up 70) = true.
Proof. vm_compute. reflexivity. Qed.

Lemma default_heights_step (c : Z) :
  80 <= c < 150 ->
  exists h h', bar_height default_globals c = Some h
               /\ bar_height default_globals (c + 1) = Some h' /\ h <= h'.
Proof.
  intros Hc.
  pose proof (proj1 (forallb_forall _ _) default_heights_sorted (c - 80)
                (proj2 (In_count_up 70 (c - 80)) ltac:(lia))) as H.
  cbv beta in H. replace (80 + (c - 80)) with c in H by lia.
  destruct (bar_height default_globals c) as [h|]; [|discriminate].
  destruct (bar_height default_globals (c + 1)) as [h'|]; [|discriminate].
  exists h, h'. apply Z.leb_le in H. auto.
Qed.

(** In the default configuration the height does not decrease along the
    clamped readings. *)
Lemma default_heights_monotone (c1 c2 : Z) :
  80 <= c1 <= c2 -> c2 <= 150 ->
  exists h1 h2, bar_height default_globals c1 = Some h1
                /\ bar_height default_globals c2 = Some h2 /\ h1 <= h2.
Proof.
  intros H1 H2.
  replace c2 with (c1 + Z.of_nat (Z.to_nat (c2 - c1))) by lia.
  assert (Hn : c1 + Z.of_nat (Z.to_nat (c2 - c1)) <= 150) by lia.
  induction (Z.to_nat (c2 - c1)) as [|n IH].
  - rewrite Z.add_0_r in *.
    exists (exact_height default_globals c1), (exact_height default_globals c1).
    rewrite default_heights_exact by lia. repeat split; lia.
  - destruct IH as (h1 & h2 & E1 & E2 & Hle); [lia|].
    destruct (default_heights_step (c1 + Z.of_nat n)) as (h & h' & E & E' & Hs);
      [lia|].
    replace (c1 + Z.of_nat (S n)) with (c1 + Z.of_nat n + 1) by lia.
    exists h1, h'. rewrite E2 in E. injection E as <-.
    repeat split; [exact E1 | exact E' | lia].
Qed.

(** For readings that are not negative, clamping followed by the height
    is monotone in the default configuration. *)
Lemma default_heights_monotone_nonnegative (v1 v2 : Z) :
  0 <= v1 <= v2 -> v2 <= INT_MAX ->
  exists h1 h2, bar_height default_globals v1 = Some h1
                /\ bar_height default_globals v2 = Some h2 /\ h1 <= h2.
Proof.
  intros H1 H2.
  assert (Hc : forall v, 0 <= v <= INT_MAX ->
               clamp default_globals v = Z.max 80 (Z.min v 150)).
  { intros v Hv. apply (clamp_nonnegative default_globals);
      [vm_compute; intuition discriminate
      | vm_compute; intuition discriminate | exact Hv]. }
  assert (Hb : forall v, 0 <= v <= INT_MAX ->
               bar_height default_globals v
               = bar_height default_globals (Z.max 80 (Z.min v 150))).
  { intros v Hv. apply bar_height_of_clamped; [now apply Hc|].
    rewrite Hc by (unfold INT_MAX; lia). lia. }
  rewrite (Hb v1), (Hb v2) by lia.
  apply default_heights_monotone; lia.
Qed.

(** C8, where the code departs from it.  In the default configuration
    every negative reading is drawn at full height, 20 levels above the
    baseline, while the reading 0 above it is drawn at height 0. *)
Theorem bar_height_negative_reading (v : Z) :
  INT_MIN <= v < 0 ->
  bar_height default_globals v = Some 20
  /\ bar_height default_globals 0 = Some 0
  /\ v <= 0.
Proof.
  intros Hv. split; [|split; [reflexivity | lia]].
  pose proof (to_uint_negative v Hv) as Hu.
  rewrite (bar_height_of_clamped default_globals v 150);
    [reflexivity | |reflexivity].
  rewrite clamp_above_max; [reflexivity | |];
    change (VOLTS_MIN default_globals) with 80;
    change (VOLTS_MAX default_globals) with 150; lia.
Qed.

Lemma bar_height_negative_reading_witness :
  bar_height default_globals (-1) = Some 20
  /\ bar_height default_globals 0 = Some 0
  /\ -1 <= 0.
Proof.
  apply (bar_height_negative_reading (-1)). vm_compute. intuition discriminate.
Defined.

(** A quotient that is an integer and a half is rounded outwards, for the
    heights of any screen of up to 4096 lines. *)
Lemma ties_round_outwards_table :
  forallb (fun k =>
    match round_to_int (Double.of_uint k + 0.5)%float with
    | Some h => h =? k + 1
    | None => false
    end) (count_up 4096) = true.
Proof. vm_compute. reflexivity. Qed.

Lemma ties_round_outwards (k : Z) :
  0 <= k < 4096 ->
  round_to_int (Double.of_uint k + 0.5)%float = Some (k + 1).
Proof.
  intros Hk.
  pose proof (proj1 (forallb_forall _ _) ties_round_outwards_table k
                (proj2 (In_count_up 4096 k) Hk)) as H.
  cbv beta in H.
  destruct (round_to_int (Double.of_uint k + 0.5)%float) as [h|];
    [|discriminate].
  apply Z.eqb_eq in H. now subst.
Qed.

(** C7 fails for an exact tie.  With 17 lines the step is 70/13, which no
    double holds; the reading 115 lies 6.5 steps above [VOLTS_MIN], and the
    double quotient falls just under 6.5: the height is 6, not 7.  It also
    fails when [VOLTS_MIN = VOLTS_MAX]: the step is zero, the quotient of
    the reading 150 is 0/0, not a number, and its conversion to [int] is
    undefined; no height follows, and no filled row. *)
Lemma bar_height_tie_rounds_inwards :
  set_options [(1, "17"%string)] initial_globals = Some screen_17
  /\ clamp screen_17 115 = 115
  /\ Qeq (exact_quotient screen_17 115) (13 # 2)
  /\ exact_height screen_17 115 = 7
  /\ option_map (Qle_bool (13 # 2)) (Double.to_Q (quotient screen_17 115))
     = Some false
  /\ bar_height screen_17 115 = Some 6
  /\ set_options [(4, "15"%string)] initial_globals = Some flat_range
  /\ (VOLTS_MIN flat_range, VOLTS_MAX flat_range, clamp flat_range 150)
     = (150, 150, 150)
  /\ VOLTS_STEP flat_range = 0%float
  /\ PrimFloat.classify (quotient flat_range 150) = NaN
  /\ bar_height flat_range 150 = None.
Proof. repeat split; vm_compute; reflexivity. Qed.

(** With the bounds the wrong way round the step is a number other than
    zero, and yet the reading at [VOLTS_MIN] is not drawn at height 0: it
    is lowered to [VOLTS_MAX] first, the difference wraps around, and the
    bar has the full height 20. *)
Lemma bar_height_inverted_bounds :
  set_options [(4, "20"%string); (5, "10"%string)] initial_globals
  = Some inverted_range
  /\ (VOLTS_MIN inverted_range, VOLTS_MAX inverted_range) = (200, 100)
  /\ is_nonzero_number (VOLTS_STEP inverted_range) = true
  /\ clamp inverted_range 200 = 100
  /\ bar_height inverted_range 200 = Some 20.
Proof. repeat split; vm_compute; reflexivity. Qed.

(** C7, as the code has it.  The height is the sum of the double quotient
    and a half of its sign, truncated to [int]; the cells painted in
    reverse video are those of the levels [0, ..., height], that is
    [height + 1] levels.  In a configuration with
    [0 <= VOLTS_MIN <= VOLTS_MAX <= INT_MAX] whose [VOLTS_STEP] is a number
    other than zero, a reading at [VOLTS_MIN] has height 0 and fills one
    level; a double quotient of [k] and a half gives height [k + 1], for
    the heights of screens of up to 4096 lines; and in the default
    configuration the height of every clamped reading is the exact
    quotient rounded half away from zero. *)
Theorem bar_height_rows (g : globals) (v : Z) :
  bar_height g v
  = (let x := quotient g (clamp g v) in
     Double.to_int (x + (if PrimFloat.ltb 0 x then 0.5 else -0.5))%float)
  /\ (forall i b ops, print_bar g i v = Some (b, ops) ->
        exists h, bar_height g v = Some h
          /\ filter is_reverse ops
             = flat_map (level_cells g i true) (filled_levels (h + 1))
          /\ (forall j, In j (filled_levels (h + 1)) <-> 0 <= j <= h)
          /\ List.length (filled_levels (h + 1)) = Z.to_nat (h + 1))
  /\ (is_nonzero_number (VOLTS_STEP g) = true ->
      0 <= VOLTS_MIN g <= VOLTS_MAX g -> VOLTS_MAX g <= INT_MAX ->
      v = VOLTS_MIN g ->
      bar_height g v = Some 0 /\ filled_levels (0 + 1) = [0])
  /\ (forall k, 0 <= k < 4096 ->
        quotient g (clamp g v) = (Double.of_uint k + 0.5)%float ->
        bar_height g v = Some (k + 1))
  /\ (80 <= v <= 150 ->
      bar_height default_globals v = Some (exact_height default_globals v)).
Proof.
  split; [reflexivity|]. split; [|split; [|split]].
  - intros i b ops H.
    destruct (print_bar_filled g i v b ops H) as (h & Hh & _ & Hf).
    exists h. split; [exact Hh|]. split; [exact Hf|].
    split; [|apply count_up_length].
    intros j. unfold filled_levels. rewrite In_count_up. lia.
  - intros Hs Hm HM ->. split; [|reflexivity].
    unfold bar_height.
    rewrite (clamp_nonnegative g Hm HM) by lia.
    replace (Z.max (VOLTS_MIN g) (Z.min (VOLTS_MIN g) (VOLTS_MAX g)))
      with (VOLTS_MIN g) by lia.
    unfold quotient.
    rewrite (to_uint_small (VOLTS_MIN g)) by (unfold UINT_MOD, INT_MAX in *; lia).
    rewrite Z.sub_diag. change (to_uint 0) with 0.
    now apply round_zero_quotient.
  - intros k Hk Hq. unfold bar_height. rewrite Hq.
    now apply ties_round_outwards.
  - apply default_heights_exact.
Qed.

(** * Properties of the read loop *)

(** ** The mirror file *)

Lemma appended_app (evs evs' : list event) :
  appended (evs ++ evs') = appended evs ++ appended evs'.
Proof. apply flat_map_app. Qed.

Lemma frames_app (evs evs' : list event) :
  frames (evs ++ evs') = frames evs ++ frames evs'.
Proof. apply flat_map_app. Qed.

Lemma opens_app (evs evs' : list event) :
  opens (evs ++ evs') = (opens evs + opens evs')%nat.
Proof. unfold opens. now rewrite filter_app, length_app. Qed.

(** C4, as the code has it.  [is_valid_line] has copied the stripped
    record over [line] before [append_data_line] runs: with an output file
    configured, the bytes appended for an accepted record are the
    normalized record, its white space removed, followed by a newline; a
    rejected record appends nothing. *)
Theorem mirror_appends_normalized (g : globals) (raw path : string) :
  OUTPUT_FILE g = Some path ->
  appended (fst (process_record g raw))
  = match validate_and_normalize raw with
    | Some line => [(line ++ NEWLINE)%string]
    | None => []
    end
  /\ (forall line, validate_and_normalize raw = Some line ->
        line = strip_white_space raw).
Proof.
  intros Hout. split.
  - unfold process_record, validate_and_normalize.
    destruct (is_valid_line raw) as [valid line].
    destruct valid; [|reflexivity].
    rewrite Hout.
    destruct (read_voltages line) as [voltages|]; [|reflexivity].
    destruct (VOLTAGES_CAPACITY <? List.length voltages)%nat; [reflexivity|].
    destruct (print_battery_bars g _) as [[batteries ops]|]; [|reflexivity].
    cbn [fst]. rewrite !appended_app. cbn.
    destruct (0 <? FRAME_INTERVAL g); reflexivity.
  - intros line H. now apply validate_accepts in H.
Qed.

Lemma mirror_appends_normalized_witness :
  OUTPUT_FILE mirroring = Some "mirror.txt"%string
  /\ appended (fst (process_record mirroring spaced_record))
     = [("B,12,H" ++ NEWLINE)%string].
Proof.
  split; [reflexivity|].
  exact (proj1 (mirror_appends_normalized mirroring spaced_record
                  "mirror.txt" eq_refl)).
Defined.

(** The record ["B, 12,H\n"] is mirrored as ["B,12,H\n"]: neither its
    blank nor its own newline reaches the file, which does not receive the
    raw record followed by a newline. *)
Lemma mirror_loses_white_space :
  set_options [(8, "mirror.txt"%string)] initial_globals = Some mirroring
  /\ validate_and_normalize spaced_record = Some "B,12,H"%string
  /\ appended (fst (process_record mirroring spaced_record))
     = [("B,12,H" ++ NEWLINE)%string]
  /\ ("B,12,H" ++ NEWLINE)%string <> (spaced_record ++ NEWLINE)%string.
Proof. repeat split; try reflexivity. vm_compute. discriminate. Qed.

(** ** The outer loop *)

Lemma read_records_events (g : globals) (records : list string) :
  snd (read_records g records) = true ->
  fst (read_records g records)
  = flat_map (fun raw => fst (process_record g raw)) records.
Proof.
  induction records as [|raw rest IH]; simpl; [reflexivity|].
  destruct (process_record g raw) as [evs ok]. destruct ok; [|discriminate].
  destruct (read_records g rest) as [evs' ok']. simpl in *.
  intros H. now rewrite IH.
Qed.

Lemma read_records_each (g : globals) (records : list string) :
  snd (read_records g records) = true ->
  forall raw, In raw records -> snd (process_record g raw) = true.
Proof.
  induction records as [|r rest IH]; simpl; [intros _ raw []|].
  destruct (process_record g r) as [evs ok] eqn:E.
  destruct ok; [|discriminate].
  destruct (read_records g rest) as [evs' ok']. cbn [snd] in *.
  intros H raw [<-|Hin]; [now rewrite E | now apply IH].
Qed.

(** A record that is processed draws one frame when the validation
    accepts it, and none when it is rejected. *)
Lemma process_record_frames (g : globals) (raw : string) :
  snd (process_record g raw) = true ->
  List.length (frames (fst (process_record g raw)))
  = match validate_and_normalize raw with Some _ => 1%nat | None => 0%nat end.
Proof.
  unfold process_record, validate_and_normalize.
  destruct (is_valid_line raw) as [valid line].
  destruct valid; [|reflexivity].
  destruct (read_voltages line) as [voltages|]; [|discriminate].
  destruct (VOLTAGES_CAPACITY <? List.length voltages)%nat; [discriminate|].
  destruct (print_battery_bars g _) as [[batteries ops]|]; [|discriminate].
  intros _. cbn [fst]. rewrite !frames_app.
  destruct (OUTPUT_FILE g), (0 <? FRAME_INTERVAL g); reflexivity.
Qed.

Lemma main_loop_read_errors (g : globals) (errs world : list session) :
  forallb (read_error_session g) errs = true ->
  main_loop g (errs ++ world)
  = (flat_map (session_events g) errs ++ fst (main_loop g world),
     snd (main_loop g world)).
Proof.
  induction errs as [|s errs IH]; intros H.
  - simpl. now destruct (main_loop g world).
  - cbn [forallb] in H. apply andb_true_iff in H. destruct H as [Hs Herrs].
    cbn [app main_loop flat_map]. rewrite (IH Herrs).
    destruct s as [|records [|]]; try discriminate Hs.
    cbn [read_error_session] in Hs. cbn [session_events].
    destruct (read_records g records) as [evs ok]. cbn [snd fst] in *.
    subst ok. cbn [fst snd app]. f_equal. f_equal.
    now rewrite <- !app_assoc.
Qed.

Lemma process_record_opens (g : globals) (raw : string) :
  opens (fst (process_record g raw)) = 0%nat.
Proof.
  unfold process_record.
  destruct (is_valid_line raw) as [valid line].
  destruct valid; [|reflexivity].
  destruct (read_voltages line) as [voltages|];
    [|now destruct (OUTPUT_FILE g)].
  destruct (VOLTAGES_CAPACITY <? List.length voltages)%nat;
    [now destruct (OUTPUT_FILE g)|].
  destruct (print_battery_bars g _) as [[batteries ops]|];
    [|now destruct (OUTPUT_FILE g)].
  cbn [fst]. rewrite !opens_app.
  destruct (OUTPUT_FILE g), (0 <? FRAME_INTERVAL g); reflexivity.
Qed.

Lemma read_records_opens (g : globals) (records : list string) :
  opens (fst (read_records g records)) = 0%nat.
Proof.
  induction records as [|raw rest IH]; simpl; [reflexivity|].
  pose proof (process_record_opens g raw) as Hp.
  destruct (process_record g raw) as [evs ok]. cbn [fst] in Hp.
  destruct ok; [|exact Hp].
  destruct (read_records g rest) as [evs' ok']. cbn [fst] in *.
  rewrite opens_app. lia.
Qed.

Lemma session_events_opens (g : globals) (records : list string)
    (ending : fgets_end) :
  opens (session_events g (Opened records ending)) = 1%nat.
Proof.
  cbn [session_events]. change (Fopen :: ?l) with ([Fopen] ++ l).
  rewrite !opens_app, read_records_opens. reflexivity.
Qed.

Lemma read_error_sessions_opens (g : globals) (errs : list session) :
  forallb (read_error_session g) errs = true ->
  opens (flat_map (session_events g) errs) = List.length errs.
Proof.
  induction errs as [|s errs IH]; [reflexivity|].
  cbn [forallb flat_map List.length]. intros H.
  apply andb_true_iff in H. destruct H as [Hs Herrs].
  rewrite opens_app, (IH Herrs).
  destruct s as [|records ending]; [discriminate Hs|].
  now rewrite session_events_opens.
Qed.

(** C1, as the code has it.  The outer loop opens the file again after a
    pass that [fgets] ended with a read error, and leaves at the first pass
    that ends at end-of-file: the file is then closed and not opened
    again, whatever is appended to it later.  The records are processed in
    the order read, pass after pass; as long as the passes end in read
    errors the loop goes on. *)
Theorem main_loop_until_eof (g : globals) (errs : list session)
    (records : list string) (rest : list session) :
  forallb (read_error_session g) errs = true ->
  snd (read_records g records) = true ->
  main_loop g (errs ++ Opened records AtEof :: rest)
  = (flat_map (session_events g) (errs ++ [Opened records AtEof]), LoopLeft)
  /\ opens (fst (main_loop g (errs ++ Opened records AtEof :: rest)))
     = S (List.length errs)
  /\ fst (read_records g records)
     = flat_map (fun raw => fst (process_record g raw)) records
  /\ (forall raw, In raw records ->
        List.length (frames (fst (process_record g raw)))
        = match validate_and_normalize raw with
          | Some _ => 1%nat
          | None => 0%nat
          end)
  /\ snd (main_loop g errs) = StillLooping.
Proof.
  intros Herrs Hok.
  assert (Hrun : main_loop g (errs ++ Opened records AtEof :: rest)
    = (flat_map (session_events g) (errs ++ [Opened records AtEof]), LoopLeft)).
  { rewrite (main_loop_read_errors g errs _ Herrs). cbn [main_loop].
    rewrite flat_map_app. cbn [flat_map session_events].
    destruct (read_records g records) as [evs ok]. cbn [snd fst] in *.
    subst ok. cbn [fst snd]. now rewrite app_nil_r. }
  split; [exact Hrun|]. split; [|split; [|split]].
  - rewrite Hrun. cbn [fst]. rewrite flat_map_app, opens_app.
    rewrite (read_error_sessions_opens g errs Herrs).
    cbn [flat_map]. rewrite app_nil_r, session_events_opens. lia.
  - now apply read_records_events.
  - intros raw Hin. apply process_record_frames.
    now apply (read_records_each g records Hok).
  - rewrite <- (app_nil_r errs), (main_loop_read_errors g errs [] Herrs).
    reflexivity.
Qed.

Lemma main_loop_until_eof_witness :
  forallb (read_error_session default_globals)
          [Opened [record_100] ReadError] = true
  /\ snd (read_records default_globals [record_100; record_120]) = true
  /\ snd (main_loop default_globals
            [Opened [record_100] ReadError;
             Opened [record_100; record_120] AtEof;
             Opened [record_100; record_120; record_100] AtEof]) = LoopLeft
  /\ opens (fst (main_loop default_globals
                   [Opened [record_100] ReadError;
                    Opened [record_100; record_120] AtEof;
                    Opened [record_100; record_120; record_100] AtEof]))
     = 2%nat.
Proof.
  assert (H1 : forallb (read_error_session default_globals)
                 [Opened [record_100] ReadError] = true)
    by (vm_compute; reflexivity).
  assert (H2 : snd (read_records default_globals [record_100; record_120])
               = true) by (vm_compute; reflexivity).
  split; [exact H1|]. split; [exact H2|].
  destruct (main_loop_until_eof default_globals
              [Opened [record_100] ReadError] [record_100; record_120]
              [Opened [record_100; record_120; record_100] AtEof] H1 H2)
    as (Hrun & Hopens & _).
  split; [|exact Hopens].
  cbn [app] in Hrun. now rewrite Hrun.
Defined.

(** C1 fails at end-of-file.  A file of one record is read to its end:
    the loop is left after one [fopen], one frame drawn, and the second
    session, in which a record has been appended, is never opened.  Had
    the first pass ended in a read error instead, the file would have been
    opened again and read from its start. *)
Lemma main_loop_leaves_at_eof :
  snd (main_loop default_globals
         [Opened [record_100] AtEof; Opened [record_100; record_120] AtEof])
  = LoopLeft
  /\ opens (fst (main_loop default_globals
         [Opened [record_100] AtEof; Opened [record_100; record_120] AtEof]))
     = 1%nat
  /\ frames (fst (main_loop default_globals
         [Opened [record_100] AtEof; Opened [record_100; record_120] AtEof]))
     = [[100]]
  /\ opens (fst (main_loop default_globals
         [Opened [record_100] ReadError; Opened [record_100; record_120] AtEof]))
     = 2%nat
  /\ frames (fst (main_loop default_globals
         [Opened [record_100] ReadError; Opened [record_100; record_120] AtEof]))
     = [[100]; [100]; [120]].
Proof. repeat split; vm_compute; reflexivity. Qed.

(** * Further properties of the record parser *)

(** ** The buffer of [is_valid_line] *)

Lemma strip_white_space_length (line : string) :
  (String.length (strip_white_space line) <= String.length line)%nat.
Proof.
  induction line as [|c rest IH]; [apply Nat.le_refl|].
  cbn [strip_white_space String.length].
  destruct (strchr WHITE_SPACE c); cbn [String.length]; lia.
Qed.

Lemma strip_white_space_no_blank (line : string) (c : ascii) :
  In c (chars (strip_white_space line)) -> strchr WHITE_SPACE c = false.
Proof.
  rewrite strip_white_space_chars, filter_In. intros [_ H].
  now apply negb_true_iff in H.
Qed.

(** X1.  [is_valid_line] never lengthens the text in [line]: [tmp], of
    [strlen (line) + 1] bytes, holds the stripped text, and the copy back
    fits the caller's buffer.  A rejected line is left as read; an accepted
    one is left without white space, not empty, and made of the allowed
    characters only. *)
Theorem is_valid_line_buffer (line : string) :
  (String.length (strip_white_space line) <= String.length line)%nat
  /\ (String.length (snd (is_valid_line line)) <= String.length line)%nat
  /\ (fst (is_valid_line line) = false -> snd (is_valid_line line) = line)
  /\ (fst (is_valid_line line) = true ->
      snd (is_valid_line line) = strip_white_space line
      /\ snd (is_valid_line line) <> EmptyString
      /\ (forall c, In c (chars (snd (is_valid_line line))) ->
            strchr ALLOWED_CHARS c = true /\ strchr WHITE_SPACE c = false)).
Proof.
  pose proof (strip_white_space_length line) as Hlen.
  unfold is_valid_line.
  destruct (check_allowed (strip_white_space line)) eqn:Hc;
    destruct (strip_white_space line) as [|a t] eqn:Hs; cbn [fst snd negb
      Nat.eqb String.length];
    (split; [exact Hlen|]); (split; [first [exact Hlen | lia]|]);
    (split; [intros H; first [reflexivity | discriminate H]|]);
    intros H; try discriminate H.
  split; [reflexivity|]. split; [discriminate|].
  intros c Hin. split.
  - exact (proj1 (check_allowed_true _) Hc c Hin).
  - apply (strip_white_space_no_blank line). now rewrite Hs.
Qed.

(** ** Tokens and fields *)

Lemma split_fields_token (s : string) :
  exists tail,
    split_fields s = fst (split_token "," s) :: tail
    /\ filter nonempty tail
       = filter nonempty (split_fields (snd (split_token "," s))).
Proof.
  induction s as [|c rest IH].
  - exists []. split; reflexivity.
  - cbn [split_fields split_token strchr].
    destruct (Ascii.eqb_spec c ",") as [->|Hc].
    + rewrite Ascii.eqb_refl. exists (split_fields rest). split; reflexivity.
    + assert (Hc' : Ascii.eqb "," c = false)
        by (apply Ascii.eqb_neq; congruence).
      rewrite Hc'. destruct IH as (tail & Hsplit & Htail).
      rewrite Hsplit. destruct (split_token "," rest) as [tok save].
      exists tail. split; [reflexivity | exact Htail].
Qed.

Lemma split_fields_skip_delims (s : string) :
  filter nonempty (split_fields (skip_delims "," s))
  = filter nonempty (split_fields s).
Proof.
  induction s as [|c rest IH]; [reflexivity|].
  cbn [skip_delims split_fields strchr].
  destruct (Ascii.eqb_spec c ",") as [->|Hc].
  - rewrite Ascii.eqb_refl. exact IH.
  - assert (Hc' : Ascii.eqb "," c = false)
      by (apply Ascii.eqb_neq; congruence).
    rewrite Hc'. cbn [split_fields].
    now rewrite (proj2 (Ascii.eqb_neq c ",") Hc).
Qed.

(** X2.  [read_voltages] sees the fields of the line that are not empty, in
    order: [strtok] drops the empty fields, those of leading, doubled and
    trailing commas. *)
Theorem tokens_are_nonempty_fields (line : string) :
  tokens line = filter nonempty (split_fields line).
Proof.
  remember (String.length line) as n eqn:Hn. revert line Hn.
  induction n as [n IH] using lt_wf_ind. intros line ->.
  rewrite (tokens_unfold line).
  destruct (strtok line ",") as [[token save]|] eqn:E.
  - rewrite (IH _ (strtok_shorter _ _ _ _ E) save eq_refl).
    pose proof (strtok_nonempty _ _ _ _ E) as Hne.
    unfold strtok in E. rewrite <- (split_fields_skip_delims line).
    destruct (skip_delims "," line) as [|c rest]; [discriminate|].
    assert (E' : split_token "," (String c rest) = (token, save))
      by congruence.
    destruct (split_fields_token (String c rest)) as (tail & Hsplit & Htail).
    rewrite E' in Hsplit, Htail. rewrite Hsplit. cbn [fst snd] in *. cbn [filter].
    destruct token; [contradiction|]. cbn [nonempty]. now rewrite Htail.
  - unfold strtok in E. rewrite <- (split_fields_skip_delims line).
    destruct (skip_delims "," line); [reflexivity | discriminate].
Qed.

(** ** Readings of a validated record *)

Lemma skip_delims_chars (delim s : string) (c : ascii) :
  In c (chars (skip_delims delim s)) -> In c (chars s).
Proof.
  induction s as [|a rest IH]; [intros []|].
  cbn [skip_delims]. destruct (strchr delim a); [|exact (fun H => H)].
  intros H. right. exact (IH H).
Qed.

Lemma split_token_chars (delim s : string) (c : ascii) :
  (In c (chars (fst (split_token delim s))) ->
   In c (chars s) /\ strchr delim c = false)
  /\ (In c (chars (snd (split_token delim s))) -> In c (chars s)).
Proof.
  induction s as [|a rest IH]; [split; intros []|].
  cbn [split_token]. destruct (strchr delim a) eqn:Ha.
  - split; [intros [] | intros H; now right].
  - destruct (split_token delim rest) as [tok save]. cbn [fst snd chars] in *.
    destruct IH as [IHt IHs]. split.
    + intros [<-|H]; [split; [now left | exact Ha]|].
      destruct (IHt H) as [H1 H2]. split; [now right | exact H2].
    + intros H. right. exact (IHs H).
Qed.

Lemma strtok_chars (save delim tok save' : string) (c : ascii) :
  strtok save delim = Some (tok, save') ->
  (In c (chars tok) -> In c (chars save) /\ strchr delim c = false)
  /\ (In c (chars save') -> In c (chars save)).
Proof.
  unfold strtok. intros H.
  pose proof (skip_delims_chars delim save c) as Hskip.
  destruct (skip_delims delim save) as [|a rest]; [discriminate|].
  assert (E : split_token delim (String a rest) = (tok, save')) by congruence.
  pose proof (split_token_chars delim (String a rest) c) as [Ht Hs].
  rewrite E in Ht, Hs. cbn [fst snd] in Ht, Hs. split.
  - intros Hin. destruct (Ht Hin) as [H1 H2]. split; [exact (Hskip H1) | exact H2].
  - intros Hin. exact (Hskip (Hs Hin)).
Qed.

(** The characters of a token are characters of the line, and none of
    them is a comma. *)
Lemma tokens_chars (line t : string) (c : ascii) :
  In t (tokens line) -> In c (chars t) ->
  In c (chars line) /\ c <> ","%char.
Proof.
  remember (String.length line) as n eqn:Hn. revert line Hn.
  induction n as [n IH] using lt_wf_ind. intros line ->.
  rewrite (tokens_unfold line).
  destruct (strtok line ",") as [[token save]|] eqn:E; [|intros []].
  destruct (strtok_chars _ _ _ _ c E) as [Ht Hs].
  intros [<-|Hin] Hc.
  - destruct (Ht Hc) as [H1 H2]. split; [exact H1|].
    intros ->. discriminate H2.
  - destruct (IH _ (strtok_shorter _ _ _ _ E) save eq_refl Hin Hc) as [H1 H2].
    split; [exact (Hs H1) | exact H2].
Qed.

(** An allowed character is no white space for [strtol] and no sign. *)
Lemma allowed_no_space_no_sign (c : ascii) :
  strchr ALLOWED_CHARS c = true ->
  isspace c = false /\ c <> "-"%char /\ c <> "+"%char.
Proof.
  destruct c as [[|] [|] [|] [|] [|] [|] [|] [|]]; vm_compute;
    intros H; first [discriminate H | repeat split; discriminate].
Qed.

Lemma digit_value_range (c : ascii) (d : Z) :
  digit_value c = Some d -> 0 <= d <= 9.
Proof.
  unfold digit_value.
  destruct (Z.leb_spec 48 (Z.of_nat (nat_of_ascii c)));
    destruct (Z.leb_spec (Z.of_nat (nat_of_ascii c)) 57); cbn [andb];
    intros Hd; try discriminate Hd. injection Hd as <-. lia.
Qed.

Lemma digits_value_range (s : string) (acc : Z) :
  0 <= acc ->
  0 <= digits_value s acc
  <= acc * 10 ^ Z.of_nat (String.length s)
     + (10 ^ Z.of_nat (String.length s) - 1).
Proof.
  revert acc. induction s as [|c rest IH]; intros acc Hacc.
  - cbn. lia.
  - cbn [digits_value String.length]. rewrite Nat2Z.inj_succ, Z.pow_succ_r by lia.
    set (p := 10 ^ Z.of_nat (String.length rest)) in *.
    assert (Hp : 0 < p) by (apply Z.pow_pos_nonneg; lia).
    destruct (digit_value c) as [d|] eqn:Hd.
    + pose proof (digit_value_range c d Hd) as Hr.
      specialize (IH (10 * acc + d) ltac:(lia)). nia.
    + nia.
Qed.

(** The value that [atoi] gives to a token of allowed characters: its
    leading digits, as long as a [long] holds them. *)
Lemma atoi_allowed (t : string) :
  (forall c, In c (chars t) -> strchr ALLOWED_CHARS c = true) ->
  atoi t = CInt.to_int (Z.min LONG_MAX (digits_value t 0)).
Proof.
  intros Hall. unfold atoi, strtol. f_equal.
  pose proof (digits_value_range t 0 ltac:(lia)) as Hr.
  destruct t as [|a rest].
  - cbn. reflexivity.
  - destruct (allowed_no_space_no_sign a (Hall a ltac:(now left)))
      as (Hsp & Hm & Hp).
    cbn [skip_spaces]. rewrite Hsp.
    assert (Hv : match String a rest with
                 | String "-"%char r => - digits_value r 0
                 | String "+"%char r => digits_value r 0
                 | t' => digits_value t' 0
                 end = digits_value (String a rest) 0).
    { destruct a as [[|] [|] [|] [|] [|] [|] [|] [|]];
        first [reflexivity | congruence]. }
    rewrite Hv. destruct Hr as [Hr _]. unfold LONG_MIN, LONG_MAX. lia.
Qed.

Lemma reading_set_In (ts : list string) (v : Z) :
  In v (reading_set ts) -> exists t, In t ts /\ v = atoi t.
Proof.
  unfold reading_set. rewrite in_map_iff.
  intros (i & <- & Hi). apply filter_In in Hi. destruct Hi as [Hi _].
  apply in_seq in Hi. exists (nth i ts EmptyString).
  split; [apply nth_In; lia | reflexivity].
Qed.

Lemma before_sentinel_all (readings : list Z) :
  (forall v, In v readings -> v <> -1) -> before_sentinel readings = readings.
Proof.
  induction readings as [|v rest IH]; [reflexivity|].
  intros H. cbn [before_sentinel].
  destruct (Z.eqb_spec v (-1)) as [E|_]; [now apply H in E; [|left]|].
  f_equal. apply IH. intros w Hw. apply H. now right.
Qed.

Lemma accepted_token_allowed (raw line t : string) (c : ascii) :
  validate_and_normalize raw = Some line ->
  In t (tokens line) -> In c (chars t) -> strchr ALLOWED_CHARS c = true.
Proof.
  intros Hval Ht Hc. apply validate_accepts in Hval.
  destruct Hval as (_ & _ & Hok).
  apply (proj1 (check_allowed_true line) Hok).
  exact (proj1 (tokens_chars line t c Ht Hc)).
Qed.

Lemma accepted_token_value (raw line t : string) :
  validate_and_normalize raw = Some line ->
  In t (tokens line) -> (String.length t <= 9)%nat ->
  atoi t = digits_value t 0 /\ 0 <= atoi t < 10 ^ 9.
Proof.
  intros Hval Ht Hshort.
  rewrite (atoi_allowed t (fun c => accepted_token_allowed raw line t c Hval Ht)).
  pose proof (digits_value_range t 0 ltac:(lia)) as Hr.
  assert (Hp : 10 ^ Z.of_nat (String.length t) <= 10 ^ 9)
    by (apply Z.pow_le_mono_r; lia).
  assert (Hb : 0 <= digits_value t 0 < 10 ^ 9) by lia.
  rewrite Z.min_r by (unfold LONG_MAX; lia).
  rewrite to_int_small by (unfold INT_MAX; lia). split; [reflexivity | exact Hb].
Qed.

Lemma accepted_readings_range (raw line : string) :
  validate_and_normalize raw = Some line ->
  (forall t, In t (tokens line) -> (String.length t <= 9)%nat) ->
  forall v, In v (reading_set (tokens line)) -> 0 <= v < 10 ^ 9.
Proof.
  intros Hval Hshort v Hv.
  destruct (reading_set_In _ _ Hv) as (t & Ht & ->).
  exact (proj2 (accepted_token_value raw line t Hval Ht (Hshort t Ht))).
Qed.

(** X3.  The readings of an accepted record whose fields have at most nine
    characters: each is the value of the leading digits of its token, so
    it lies between 0 and 999999999, a token that begins with a letter
    reads as 0, and no reading equals the [-1] that ends the readings. *)
Theorem readings_of_short_fields (raw line : string) :
  validate_and_normalize raw = Some line ->
  (forall t, In t (tokens line) -> (String.length t <= 9)%nat) ->
  (forall t, In t (tokens line) ->
     atoi t = digits_value t 0 /\ 0 <= atoi t < 10 ^ 9
     /\ (forall a rest, t = String a rest -> digit_value a = None ->
           atoi t = 0))
  /\ (forall v, In v (reading_set (tokens line)) -> 0 <= v < 10 ^ 9)
  /\ before_sentinel (reading_set (tokens line)) = reading_set (tokens line).
Proof.
  intros Hval Hshort.
  pose proof (accepted_readings_range raw line Hval Hshort) as Hread.
  split; [|split; [exact Hread|]].
  - intros t Ht.
    destruct (accepted_token_value raw line t Hval Ht (Hshort t Ht)) as [H1 H2].
    split; [exact H1|]. split; [exact H2|].
    intros a rest -> Hd. rewrite H1. cbn [digits_value]. now rewrite Hd.
  - apply before_sentinel_all. intros v Hv. specialize (Hread v Hv). lia.
Qed.

Lemma readings_of_short_fields_witness :
  validate_and_normalize "X,B,100,12A,B7,H" = Some "X,B,100,12A,B7,H"%string
  /\ reading_set (tokens "X,B,100,12A,B7,H") = [100; 12; 0]
  /\ before_sentinel (reading_set (tokens "X,B,100,12A,B7,H"))
     = reading_set (tokens "X,B,100,12A,B7,H").
Proof.
  assert (Hshort : forall t, In t (tokens "X,B,100,12A,B7,H") ->
                   (String.length t <= 9)%nat).
  { intros t Ht. vm_compute in Ht.
    repeat (destruct Ht as [<-|Ht]; [vm_compute; lia|]). destruct Ht. }
  split; [reflexivity|]. split; [reflexivity|].
  exact (proj2 (proj2 (readings_of_short_fields
                         "X,B,100,12A,B7,H" "X,B,100,12A,B7,H" eq_refl Hshort))).
Defined.

(** ** The zone between [B] and [H] *)

Lemma run_tokens_app (ts ts' : list string) (st : loop_state) :
  run_tokens (ts ++ ts') st = run_tokens ts' (run_tokens ts st).
Proof. apply fold_left_app. Qed.

Lemma run_tokens_cons (t : string) (ts : list string) (st : loop_state) :
  run_tokens (t :: ts) st = run_tokens ts (loop_body t st).
Proof. reflexivity. Qed.

Lemma loop_body_eq (t : string) (zone : bool) (stored : list Z) :
  loop_body t (zone, stored)
  = (if first_char_is "B" t then true
     else if first_char_is "H" t then false else zone,
     if (if first_char_is "H" t then false else zone)
     then stored ++ [atoi t] else stored).
Proof. reflexivity. Qed.

Lemma run_tokens_closed (ts : list string) (stored : list Z) :
  (forall t, In t ts -> first_char_is "B" t = false) ->
  run_tokens ts (false, stored) = (false, stored).
Proof.
  induction ts as [|t ts IH]; intros H; [reflexivity|].
  rewrite run_tokens_cons, loop_body_eq, (H t) by now left.
  destruct (first_char_is "H" t); apply IH; intros u Hu; apply H; now right.
Qed.

Lemma run_tokens_open (ts : list string) (stored : list Z) :
  (forall t, In t ts -> is_marker t = false) ->
  run_tokens ts (true, stored) = (true, stored ++ map atoi ts).
Proof.
  revert stored. induction ts as [|t ts IH]; intros stored H.
  - cbn. now rewrite app_nil_r.
  - pose proof (H t ltac:(now left)) as Ht. unfold is_marker in Ht.
    apply orb_false_iff in Ht. destruct Ht as [HB HH].
    rewrite run_tokens_cons, loop_body_eq, HB, HH.
    rewrite IH by (intros u Hu; apply H; now right).
    cbn [map]. now rewrite <- app_assoc.
Qed.

(** X4.  The record format.  When the tokens in front hold no [B] token, a
    [B] token opens the zone, plain tokens follow, an [H] token closes the
    zone and no [B] token comes after it, the Reading Set is the values of
    the tokens between the two markers, in order; without the [H] token
    the zone runs to the end of the record. *)
Theorem reading_set_of_zone (pre vs post : list string) (b h : string) :
  (forall t, In t pre -> first_char_is "B" t = false) ->
  first_char_is "B" b = true ->
  (forall t, In t vs -> is_marker t = false) ->
  first_char_is "H" h = true ->
  (forall t, In t post -> first_char_is "B" t = false) ->
  reading_set (pre ++ b :: vs ++ h :: post) = map atoi vs
  /\ reading_set (pre ++ b :: vs) = map atoi vs.
Proof.
  intros Hpre Hb Hvs Hh Hpost.
  assert (HbH : first_char_is "H" b = false) by now apply first_char_B_not_H.
  assert (HhB : first_char_is "B" h = false).
  { destruct (first_char_is "B" h) eqn:E; [|reflexivity].
    apply first_char_B_not_H in E. congruence. }
  assert (Hopen : run_tokens (pre ++ b :: vs) (false, [])
                  = (true, map atoi vs)).
  { rewrite run_tokens_app, (run_tokens_closed pre [] Hpre).
    rewrite run_tokens_cons, loop_body_eq, HbH, Hb. now rewrite (run_tokens_open vs [] Hvs). }
  split.
  - rewrite <- run_tokens_reading_set.
    replace (pre ++ b :: vs ++ h :: post)
      with ((pre ++ b :: vs) ++ h :: post)
      by (rewrite <- app_assoc; reflexivity).
    rewrite run_tokens_app, Hopen.
    rewrite run_tokens_cons, loop_body_eq, Hh, HhB. now rewrite (run_tokens_closed post _ Hpost).
  - rewrite <- run_tokens_reading_set. now rewrite Hopen.
Qed.

Lemma reading_set_of_zone_witness :
  reading_set ["T7"; "X"; "B"; "131"; "128"; "HH"; "42"]%string = [131; 128].
Proof.
  assert (Hpre : forall t, In t ["T7"; "X"]%string ->
                 first_char_is "B" t = false).
  { intros t Ht. repeat (destruct Ht as [<-|Ht]; [reflexivity|]). destruct Ht. }
  assert (Hvs : forall t, In t ["131"; "128"]%string -> is_marker t = false).
  { intros t Ht. repeat (destruct Ht as [<-|Ht]; [reflexivity|]). destruct Ht. }
  assert (Hpost : forall t, In t ["42"]%string -> first_char_is "B" t = false).
  { intros t Ht. repeat (destruct Ht as [<-|Ht]; [reflexivity|]). destruct Ht. }
  exact (proj1 (reading_set_of_zone ["T7"; "X"]%string ["131"; "128"]%string
                  ["42"]%string "B" "HH" Hpre eq_refl Hvs eq_refl Hpost)).
Defined.

(** * Further properties of the configuration *)

Lemma set_option_fields (c : Z) (optarg : string) (g : globals) (f : bool) :
  let g' := fst (set_option c optarg (g, f)) in
  SCREEN_HEIGHT g' = (if c =? 1 then to_uint (atoi optarg) else SCREEN_HEIGHT g)
  /\ BAR_WIDTH g' = (if c =? 2 then to_uint (atoi optarg) else BAR_WIDTH g)
  /\ SPACE_BETWEEN_BARS g'
     = (if c =? 3 then atoi optarg else SPACE_BETWEEN_BARS g)
  /\ VOLTS_MIN g' = (if c =? 4 then to_uint (10 * atoi optarg) else VOLTS_MIN g)
  /\ VOLTS_MAX g' = (if c =? 5 then to_uint (10 * atoi optarg) else VOLTS_MAX g)
  /\ MAX_LINE_LENGTH g'
     = (if c =? 6 then to_uint (atoi optarg) else MAX_LINE_LENGTH g)
  /\ FRAME_INTERVAL g'
     = (if c =? 7 then to_uint (1000 * atoi optarg) else FRAME_INTERVAL g)
  /\ OUTPUT_FILE g' = (if c =? 8 then Some optarg else OUTPUT_FILE g).
Proof. switch_cases c; cbn; repeat split; reflexivity. Qed.

Lemma options_loop_fields (opts : list (Z * string)) (g : globals) (f : bool) :
  let g' := fst (options_loop opts (g, f)) in
  SCREEN_HEIGHT g'
  = match last_optarg 1 opts with
    | Some a => to_uint (atoi a) | None => SCREEN_HEIGHT g end
  /\ BAR_WIDTH g'
     = match last_optarg 2 opts with
       | Some a => to_uint (atoi a) | None => BAR_WIDTH g end
  /\ SPACE_BETWEEN_BARS g'
     = match last_optarg 3 opts with
       | Some a => atoi a | None => SPACE_BETWEEN_BARS g end
  /\ VOLTS_MIN g'
     = match last_optarg 4 opts with
       | Some a => to_uint (10 * atoi a) | None => VOLTS_MIN g end
  /\ VOLTS_MAX g'
     = match last_optarg 5 opts with
       | Some a => to_uint (10 * atoi a) | None => VOLTS_MAX g end
  /\ MAX_LINE_LENGTH g'
     = match last_optarg 6 opts with
       | Some a => to_uint (atoi a) | None => MAX_LINE_LENGTH g end
  /\ FRAME_INTERVAL g'
     = match last_optarg 7 opts with
       | Some a => to_uint (1000 * atoi a) | None => FRAME_INTERVAL g end
  /\ OUTPUT_FILE g'
     = match last_optarg 8 opts with
       | Some a => Some a | None => OUTPUT_FILE g end.
Proof.
  revert g f. induction opts as [|[c optarg] rest IH]; intros g f.
  - cbn. repeat split; reflexivity.
  - cbn [options_loop last_optarg].
    pose proof (set_option_fields c optarg g f) as Hs.
    destruct (set_option c optarg (g, f)) as [g1 f1]. cbn [fst] in Hs.
    specialize (IH g1 f1). cbv zeta in *.
    destruct IH as (I1 & I2 & I3 & I4 & I5 & I6 & I7 & I8).
    destruct Hs as (S1 & S2 & S3 & S4 & S5 & S6 & S7 & S8).
    rewrite I1, I2, I3, I4, I5, I6, I7, I8, S1, S2, S3, S4, S5, S6, S7, S8.
    repeat split;
      match goal with
      | |- context [last_optarg ?k rest] => destruct (last_optarg k rest)
      end;
      first [reflexivity
            | match goal with |- context [c =? ?k] => destruct (c =? k) end;
              reflexivity].
Qed.

(** X5.  Every global that an option sets takes the argument of the last
    occurrence of that option, read by [atoi] and reduced modulo 2^32
    where the global is unsigned, with the volts scaled by 10 and the
    frame interval by 1000; a global whose option is absent keeps its
    initial value. *)
Theorem set_options_last_occurrence (opts : list (Z * string)) (g : globals) :
  set_options opts initial_globals = Some g ->
  SCREEN_HEIGHT g
  = match last_optarg 1 opts with Some a => to_uint (atoi a) | None => 24 end
  /\ BAR_WIDTH g
     = match last_optarg 2 opts with Some a => to_uint (atoi a) | None => 3 end
  /\ SPACE_BETWEEN_BARS g
     = match last_optarg 3 opts with Some a => atoi a | None => 3 end
  /\ VOLTS_MIN g
     = match last_optarg 4 opts with
       | Some a => to_uint (10 * atoi a) | None => 80 end
  /\ VOLTS_MAX g
     = match last_optarg 5 opts with
       | Some a => to_uint (10 * atoi a) | None => 150 end
  /\ MAX_LINE_LENGTH g
     = match last_optarg 6 opts with
       | Some a => to_uint (atoi a) | None => 512 end
  /\ FRAME_INTERVAL g
     = match last_optarg 7 opts with
       | Some a => to_uint (1000 * atoi a) | None => 0 end
  /\ OUTPUT_FILE g = last_optarg 8 opts.
Proof.
  unfold set_options.
  pose proof (options_loop_fields opts initial_globals false) as H.
  destruct (options_loop opts (initial_globals, false)) as [g' f].
  destruct f; [discriminate|]. intros E. injection E as <-.
  cbv zeta in H. cbn [fst] in H.
  destruct H as (H1 & H2 & H3 & H4 & H5 & H6 & H7 & H8).
  unfold derive. cbn [SCREEN_HEIGHT BAR_WIDTH SPACE_BETWEEN_BARS VOLTS_MIN
    VOLTS_MAX MAX_LINE_LENGTH FRAME_INTERVAL OUTPUT_FILE].
  rewrite H1, H2, H3, H4, H5, H6, H7, H8.
  repeat split; try reflexivity.
  now destruct (last_optarg 8 opts).
Qed.

Lemma set_options_last_occurrence_witness :
  option_map (fun g => (SCREEN_HEIGHT g, VOLTS_MIN g, VOLTS_MAX g, BAR_WIDTH g))
    (set_options [(1, "30"%string); (4, "9"%string); (1, "40"%string)]
       initial_globals)
  = Some (40, 90, 150, 3).
Proof.
  destruct (set_options [(1, "30"%string); (4, "9"%string); (1, "40"%string)]
              initial_globals) as [g|] eqn:E; [|discriminate E].
  destruct (set_options_last_occurrence _ g E)
    as (H1 & H2 & _ & H4 & H5 & _).
  cbn [option_map]. rewrite H1, H2, H4, H5. reflexivity.
Defined.

(** * Further properties of the bar renderer *)

(** ** Clamping *)

(** X6.  For every [int] reading the value left in [batteries[i]] lies between
    [VOLTS_MIN] and [VOLTS_MAX]; clamping it again changes nothing; a
    reading within the bounds is kept, one above [VOLTS_MAX] becomes
    [VOLTS_MAX], and one from 0 up to [VOLTS_MIN] becomes [VOLTS_MIN].
    When the bounds are given the wrong way round, [VOLTS_MAX] below
    [VOLTS_MIN], every reading becomes [VOLTS_MAX]. *)
Theorem clamp_bounds (g : globals) (v : Z) :
  0 <= VOLTS_MIN g <= INT_MAX -> 0 <= VOLTS_MAX g <= INT_MAX ->
  INT_MIN <= v <= INT_MAX ->
  (VOLTS_MIN g <= VOLTS_MAX g ->
   VOLTS_MIN g <= clamp g v <= VOLTS_MAX g
   /\ clamp g (clamp g v) = clamp g v
   /\ (VOLTS_MIN g <= v <= VOLTS_MAX g -> clamp g v = v)
   /\ (VOLTS_MAX g < v -> clamp g v = VOLTS_MAX g)
   /\ (0 <= v < VOLTS_MIN g -> clamp g v = VOLTS_MIN g))
  /\ (VOLTS_MAX g < VOLTS_MIN g -> clamp g v = VOLTS_MAX g).
Proof.
  intros Hmin Hmax Hv.
  assert (Hcases : v < 0 \/ 0 <= v) by lia.
  assert (Hneg : v < 0 -> clamp g v = VOLTS_MAX g).
  { intros Hlt. pose proof (to_uint_negative v ltac:(lia)) as Hu.
    unfold INT_MAX in *.
    rewrite clamp_above_max by lia. apply to_int_small. unfold INT_MAX. lia. }
  assert (Hpos : forall w, 0 <= w <= INT_MAX ->
            clamp g w = if w <? VOLTS_MIN g
                        then (if VOLTS_MAX g <? VOLTS_MIN g
                              then VOLTS_MAX g else VOLTS_MIN g)
                        else if VOLTS_MAX g <? w then VOLTS_MAX g else w).
  { intros w Hw. unfold clamp, INT_MAX in *.
    rewrite (to_uint_small w) by (unfold UINT_MOD; lia).
    rewrite !to_int_small by (unfold INT_MAX; lia).
    destruct (Z.ltb_spec w (VOLTS_MIN g)).
    - rewrite to_uint_small by (unfold UINT_MOD; lia). reflexivity.
    - rewrite to_uint_small by (unfold UINT_MOD; lia). reflexivity. }
  split.
  - intros Hle.
    assert (Hc : VOLTS_MIN g <= clamp g v <= VOLTS_MAX g).
    { destruct Hcases as [Hlt|Hge]; [rewrite (Hneg Hlt); lia|].
      rewrite Hpos by lia.
      destruct (Z.ltb_spec v (VOLTS_MIN g)); destruct (Z.ltb_spec (VOLTS_MAX g) (VOLTS_MIN g));
        destruct (Z.ltb_spec (VOLTS_MAX g) v); lia. }
    split; [exact Hc|]. split; [|split; [|split]].
    + rewrite (Hpos (clamp g v)) by lia.
      destruct (Z.ltb_spec (clamp g v) (VOLTS_MIN g)); [lia|].
      destruct (Z.ltb_spec (VOLTS_MAX g) (clamp g v)); [lia | reflexivity].
    + intros Hin. rewrite Hpos by lia.
      destruct (Z.ltb_spec v (VOLTS_MIN g)); [lia|].
      destruct (Z.ltb_spec (VOLTS_MAX g) v); [lia | reflexivity].
    + intros Hgt. rewrite Hpos by lia.
      destruct (Z.ltb_spec v (VOLTS_MIN g)); [lia|].
      destruct (Z.ltb_spec (VOLTS_MAX g) v); [reflexivity | lia].
    + intros Hlow. rewrite Hpos by lia.
      destruct (Z.ltb_spec v (VOLTS_MIN g)); [|lia].
      destruct (Z.ltb_spec (VOLTS_MAX g) (VOLTS_MIN g)); [lia | reflexivity].
  - intros Hinv. destruct Hcases as [Hlt|Hge]; [exact (Hneg Hlt)|].
    rewrite Hpos by lia.
    destruct (Z.ltb_spec v (VOLTS_MIN g)).
    + destruct (Z.ltb_spec (VOLTS_MAX g) (VOLTS_MIN g)); [reflexivity | lia].
    + destruct (Z.ltb_spec (VOLTS_MAX g) v); [reflexivity | lia].
Qed.

Lemma clamp_bounds_witness :
  80 <= clamp default_globals 200 <= 150
  /\ clamp default_globals 120 = 120
  /\ clamp default_globals 7 = 80.
Proof.
  assert (H1 : 0 <= VOLTS_MIN default_globals <= INT_MAX)
    by (vm_compute; intuition discriminate).
  assert (H2 : 0 <= VOLTS_MAX default_globals <= INT_MAX)
    by (vm_compute; intuition discriminate).
  assert (H3 : VOLTS_MIN default_globals <= VOLTS_MAX default_globals)
    by (vm_compute; discriminate).
  split; [|split].
  - apply (proj1 (clamp_bounds default_globals 200 H1 H2
                    ltac:(vm_compute; intuition discriminate)) H3).
  - apply (proj1 (clamp_bounds default_globals 120 H1 H2
                    ltac:(vm_compute; intuition discriminate)) H3).
    vm_compute; intuition discriminate.
  - apply (proj1 (clamp_bounds default_globals 7 H1 H2
                    ltac:(vm_compute; intuition discriminate)) H3).
    vm_compute; intuition discriminate.
Defined.

(** ** The sign of a height *)

Lemma binary_round_aux_sign (sx : bool) (m e : Z) (l : location) :
  match binary_round_aux prec emax sx m e l with
  | S754_zero s | S754_infinity s | S754_finite s _ _ => s = sx
  | S754_nan => True
  end.
Proof.
  unfold binary_round_aux.
  destruct (shr_fexp prec emax m e l) as [mrs' e'].
  destruct (shr_fexp prec emax _ e' loc_Exact) as [mrs'' e''].
  destruct (shr_m mrs''); [reflexivity | | exact I].
  destruct (Z.leb e'' (emax - prec)); reflexivity.
Qed.

Lemma binary_round_aux_not_negative (m e : Z) (l : location) :
  not_negative (binary_round_aux prec emax false m e l) = true.
Proof.
  pose proof (binary_round_aux_sign false m e l) as H.
  destruct (binary_round_aux prec emax false m e l); cbn; subst; reflexivity.
Qed.

Lemma binary_normalize_not_negative (m e : Z) :
  0 <= m -> not_negative (binary_normalize prec emax m e false) = true.
Proof.
  intros Hm. destruct m as [|p|p]; [reflexivity | | lia].
  unfold binary_normalize, binary_round.
  destruct (shl_align p e _) as [mz ez].
  apply binary_round_aux_not_negative.
Qed.

Lemma of_uint_not_negative (u : Z) :
  not_negative (Prim2SF (Double.of_uint u)) = true.
Proof.
  unfold Double.of_uint. rewrite FloatAxioms.of_uint63_spec.
  apply binary_normalize_not_negative.
  pose proof (Uint63.to_Z_bounded (Uint63.of_Z u)). lia.
Qed.

Lemma div_not_negative (x y : float) :
  not_negative (Prim2SF x) = true -> not_negative (Prim2SF y) = true ->
  not_negative (Prim2SF (x / y)) = true.
Proof.
  rewrite FloatAxioms.div_spec. unfold SF64div, SFdiv.
  destruct (Prim2SF x) as [sx|sx| |sx mx ex];
    destruct (Prim2SF y) as [sy|sy| |sy my ey]; cbn [not_negative];
    intros Hx Hy; try reflexivity;
    apply negb_true_iff in Hx; apply negb_true_iff in Hy; subst;
    try reflexivity.
  destruct (SFdiv_core_binary prec emax (Zpos mx) ex (Zpos my) ey)
    as [[mz ez] lz].
  apply binary_round_aux_not_negative.
Qed.

Lemma truncate_not_negative (x : float) (z : Z) :
  not_negative (Prim2SF x) = true -> Double.truncate x = Some z -> 0 <= z.
Proof.
  unfold Double.truncate.
  destruct (Prim2SF x) as [s|s| |s m e]; cbn [not_negative]; intros Hs H;
    try discriminate H.
  - injection H as <-. lia.
  - apply negb_true_iff in Hs. subst s.
    assert (Ha : 0 <= match e with
                      | Z0 => Zpos m
                      | Zpos p => Z.shiftl (Zpos m) (Zpos p)
                      | Zneg p => Z.shiftr (Zpos m) (Zpos p)
                      end).
    { destruct e as [|p|p];
        [lia | apply Z.shiftl_nonneg; lia | apply Z.shiftr_nonneg; lia]. }
    injection H as <-. exact Ha.
Qed.

(** The rounding of a quotient that is not negative gives no negative
    integer. *)
Lemma round_to_int_not_negative (x : float) (h : Z) :
  not_negative (Prim2SF x) = true -> round_to_int x = Some h -> 0 <= h.
Proof.
  intros Hx. unfold round_to_int.
  assert (Hto : forall y z, not_negative (Prim2SF y) = true ->
                  Double.to_int y = Some z -> 0 <= z).
  { intros y z Hy. unfold Double.to_int.
    destruct (Double.truncate y) as [t|] eqn:Ht; [|discriminate].
    destruct ((INT_MIN <=? t) && (t <=? INT_MAX)); [|discriminate].
    intros E. injection E as <-. exact (truncate_not_negative y t Hy Ht). }
  rewrite FloatAxioms.ltb_spec. change (Prim2SF 0) with (S754_zero false).
  destruct (Prim2SF x) as [s|s| |s m e] eqn:Ex; cbn [not_negative] in Hx;
    try (apply negb_true_iff in Hx; subst s).
  - (* zero *)
    assert (x = 0%float) as ->
      by (rewrite <- (SF2Prim_Prim2SF x), Ex; reflexivity).
    cbn. intros E. vm_compute in E. injection E as <-. lia.
  - (* infinity *)
    cbn [SFltb SFcompare]. apply Hto.
    rewrite FloatAxioms.add_spec, Ex. reflexivity.
  - (* not a number *)
    cbn [SFltb SFcompare]. apply Hto.
    rewrite FloatAxioms.add_spec, Ex. reflexivity.
  - (* a positive number *)
    cbn [SFltb SFcompare]. apply Hto.
    rewrite FloatAxioms.add_spec, Ex.
    change (Prim2SF 0.5) with (S754_finite false 4503599627370496 (-53)).
    unfold SF64add, SFadd, cond_Zopp.
    destruct (shl_align m e _) as [m1 e1].
    destruct (shl_align 4503599627370496 (-53) _) as [m2 e2].
    cbn [fst]. change (Zpos m1 + Zpos m2) with (Zpos (m1 + m2)).
    apply binary_normalize_not_negative. lia.
Qed.

Lemma derived_step_not_negative (opts : list (Z * string)) (g : globals) :
  set_options opts initial_globals = Some g ->
  not_negative (Prim2SF (VOLTS_STEP g)) = true.
Proof.
  unfold set_options.
  destruct (options_loop opts (initial_globals, false)) as [g' f].
  destruct f; [discriminate|]. intros E. injection E as <-.
  cbn [derive VOLTS_STEP].
  apply div_not_negative; apply of_uint_not_negative.
Qed.

(** X7.  In every configuration that [set_options] leaves, a height that is
    defined is not negative: [current] is at least 1 and the baseline
    level of the bar is filled, whatever the reading. *)
Theorem bar_height_not_negative (opts : list (Z * string)) (g : globals)
    (v h : Z) :
  set_options opts initial_globals = Some g ->
  bar_height g v = Some h ->
  0 <= h
  /\ current_of g v = (if 1 + h <=? INT_MAX then Some (1 + h) else None)
  /\ In 0 (filled_levels (1 + h)).
Proof.
  intros Hg Hh.
  assert (H0 : 0 <= h).
  { unfold bar_height in Hh.
    apply (round_to_int_not_negative (quotient g (clamp g v)) h); [|exact Hh].
    unfold quotient. apply div_not_negative;
      [apply of_uint_not_negative | exact (derived_step_not_negative opts g Hg)]. }
  split; [exact H0|]. split.
  - unfold current_of. now rewrite Hh.
  - unfold filled_levels. apply In_count_up. lia.
Qed.

Lemma bar_height_not_negative_witness :
  bar_height default_globals 100 = Some 6 /\ 0 <= 6.
Proof.
  split; [reflexivity|].
  exact (proj1 (bar_height_not_negative [] default_globals 100 6
                  eq_refl eq_refl)).
Defined.

(** ** The cells of a bar *)

Lemma seq_shifted (a : Z) (n s : nat) :
  0 <= a ->
  map Z.of_nat (seq (Z.to_nat a + s) n)
  = map (fun d => a + d) (map Z.of_nat (seq s n)).
Proof.
  intros Ha. revert s. induction n as [|n IH]; intros s; [reflexivity|].
  cbn [seq map]. f_equal; [lia|].
  rewrite <- IH. f_equal. f_equal. lia.
Qed.

Lemma count_up_app (a b : Z) :
  0 <= a -> 0 <= b ->
  count_up (a + b) = count_up a ++ map (fun d => a + d) (count_up b).
Proof.
  intros Ha Hb. unfold count_up.
  rewrite Z2Nat.inj_add, seq_app, map_app by lia. f_equal.
  rewrite <- seq_shifted by lia. f_equal. f_equal. lia.
Qed.

Lemma flat_map_ext_In {A B} (f f' : A -> list B) (l : list A) :
  (forall a, In a l -> f a = f' a) -> flat_map f l = flat_map f' l.
Proof.
  induction l as [|a l IH]; intros H; [reflexivity|].
  cbn [flat_map]. rewrite (H a) by now left.
  f_equal. apply IH. intros b Hb. apply H. now right.
Qed.

Lemma level_cells_length (g : globals) (i : Z) (f : Z -> bool) (js : list Z) :
  List.length (flat_map (fun j => level_cells g i (f j) j) js)
  = (List.length js * Z.to_nat (BAR_WIDTH g))%nat.
Proof.
  induction js as [|j js IH]; [reflexivity|].
  cbn [flat_map List.length]. rewrite length_app, IH.
  unfold level_cells. rewrite length_map, count_up_length. lia.
Qed.

(** X8.  Every frame repaints the whole of a bar.  When the height does not
    pass the top of the panel, [print_bar] paints each level from the
    baseline to [OFFSET_TOP - OFFSET_BOTTOM] once over the width of the
    bar, in reverse video up to the height and plain above it: a bar that
    was taller in the frame before is erased. *)
Theorem print_bar_repaints (g : globals) (i v b h : Z) (ops : list screen_op) :
  print_bar g i v = Some (b, ops) ->
  bar_height g v = Some h ->
  0 <= h <= step_denominator g ->
  ops = flat_map (fun j => level_cells g i (j <=? h) j)
                 (count_up (step_denominator g + 1))
  /\ List.length ops
     = (Z.to_nat (step_denominator g + 1) * Z.to_nat (BAR_WIDTH g))%nat.
Proof.
  intros Hp Hh Hb.
  assert (Hops : ops = flat_map (fun j => level_cells g i (j <=? h) j)
                         (count_up (step_denominator g + 1))).
  { unfold print_bar, current_of in Hp. rewrite Hh in Hp.
    destruct (1 + h <=? INT_MAX); [|discriminate].
    unfold blank_levels in Hp.
    destruct (Z.leb_spec 0 (1 + h)); [|lia].
    destruct (step_denominator g <? INT_MAX); [|discriminate].
    injection Hp as _ <-.
    replace (step_denominator g + 1)
      with ((1 + h) + (step_denominator g + 1 - (1 + h))) at 2 by lia.
    rewrite count_up_app, flat_map_app by lia. unfold filled_levels. f_equal.
    - apply flat_map_ext_In. intros j Hj. apply In_count_up in Hj.
      destruct (Z.leb_spec j h); [reflexivity | lia].
    - apply flat_map_ext_In. intros j Hj. apply in_map_iff in Hj.
      destruct Hj as (d & <- & Hd). apply In_count_up in Hd.
      destruct (Z.leb_spec (1 + h + d) h); [lia | reflexivity]. }
  split; [exact Hops|].
  rewrite Hops, level_cells_length, count_up_length. reflexivity.
Qed.

Lemma print_bar_repaints_witness :
  List.length (match print_bar default_globals 0 100 with
               | Some (_, ops) => ops
               | None => []
               end) = 63%nat.
Proof.
  destruct (print_bar default_globals 0 100) as [[b ops]|] eqn:E;
    [|discriminate E].
  destruct (print_bar_repaints default_globals 0 100 b 6 ops E eq_refl
              ltac:(vm_compute; intuition discriminate)) as [_ Hlen].
  rewrite Hlen. reflexivity.
Defined.

Lemma print_bars_from_clamped (g : globals) (bs : list Z) :
  forall i bs' ops,
    print_bars_from g i bs = Some (bs', ops) ->
    bs' = map (clamp g) bs
    /\ forall n v, nth_error bs n = Some v ->
         exists ops_n, print_bar g (i + Z.of_nat n) v = Some (clamp g v, ops_n)
                       /\ incl ops_n ops.
Proof.
  induction bs as [|b rest IH]; intros i bs' ops H.
  - injection H as <- <-. split; [reflexivity|]. intros [|n] v E; discriminate E.
  - cbn [print_bars_from] in H.
    destruct (print_bar g i b) as [[b' ops1]|] eqn:E1; [|discriminate].
    destruct (print_bars_from g (i + 1) rest) as [[rest' ops2]|] eqn:E2;
      [|discriminate].
    injection H as <- <-.
    destruct (IH _ _ _ E2) as [Hrest Hnth].
    assert (Hb : b' = clamp g b).
    { unfold print_bar in E1. destruct (current_of g b); [|discriminate].
      destruct (blank_levels g _); [|discriminate]. now injection E1 as <- _. }
    subst b'. split; [cbn [map]; now rewrite Hrest|].
    intros [|n] v Hv.
    + injection Hv as <-. exists ops1. rewrite Z.add_0_r.
      split; [exact E1 | apply incl_appl, incl_refl].
    + cbn [nth_error] in Hv. destruct (Hnth n v Hv) as (ops_n & Hp & Hi).
      exists ops_n. replace (i + Z.of_nat (S n)) with (i + 1 + Z.of_nat n) by lia.
      split; [exact Hp | apply incl_appr, Hi].
Qed.

Lemma print_battery_bars_array (g : globals) (bs bs' : list Z)
    (ops : list screen_op) :
  print_battery_bars g bs = Some (bs', ops) -> bs' = map (clamp g) bs.
Proof.
  unfold print_battery_bars.
  destruct (print_bars_from g 0 bs) as [[bs1 ops1]|] eqn:E; [|discriminate].
  intros H. injection H as <- _.
  exact (proj1 (print_bars_from_clamped g bs 0 bs1 ops1 E)).
Qed.

(** X9.  The array after [print_battery_bars] holds the clamped readings, one
    for one, and each bar was painted by the loop body on its own index;
    the cursor is moved last. *)
Theorem print_battery_bars_clamps (g : globals) (bs bs' : list Z)
    (ops : list screen_op) :
  print_battery_bars g bs = Some (bs', ops) ->
  bs' = map (clamp g) bs
  /\ List.length bs' = List.length bs
  /\ (forall n v, nth_error bs n = Some v ->
        exists ops_n, print_bar g (Z.of_nat n) v = Some (clamp g v, ops_n)
                      /\ incl ops_n ops)
  /\ last ops Refresh = move_cursor_to_bottom_line g.
Proof.
  unfold print_battery_bars.
  destruct (print_bars_from g 0 bs) as [[bs1 ops1]|] eqn:E; [|discriminate].
  intros H. injection H as <- <-.
  destruct (print_bars_from_clamped g bs 0 bs1 ops1 E) as [Hc Hn].
  split; [exact Hc|]. split; [now rewrite Hc, length_map|]. split.
  - intros n v Hv. destruct (Hn n v Hv) as (ops_n & Hp & Hi).
    exists ops_n. split; [exact Hp | apply incl_appl, Hi].
  - apply last_last.
Qed.

Lemma print_battery_bars_clamps_witness :
  option_map fst (print_battery_bars default_globals [200; 100; 7])
  = Some [150; 100; 80].
Proof.
  destruct (print_battery_bars default_globals [200; 100; 7])
    as [[bs' ops]|] eqn:E; [|discriminate E].
  destruct (print_battery_bars_clamps default_globals _ bs' ops E) as [-> _].
  reflexivity.
Defined.

(** ** Geometry *)

(** X10.  The columns of the bars.  As long as the sum fits an [int], cell [k]
    of bar [i] is in column [1 + 10 + (space + width) * i + k]; with a
    spacing that is not negative the bars follow one another from left to
    right, and between the last column of a bar and any column of a later
    bar lie at least [SPACE_BETWEEN_BARS] free columns. *)
Theorem bar_x_columns (g : globals) (i i' k k' : Z) :
  0 <= SPACE_BETWEEN_BARS g -> 0 <= BAR_WIDTH g ->
  0 <= i < i' -> 0 <= k < BAR_WIDTH g -> 0 <= k' ->
  1 + OFFSET_LEFT + (SPACE_BETWEEN_BARS g + BAR_WIDTH g) * i' + k' <= INT_MAX ->
  bar_x g i k = 1 + OFFSET_LEFT + (SPACE_BETWEEN_BARS g + BAR_WIDTH g) * i + k
  /\ bar_x g i' k'
     = 1 + OFFSET_LEFT + (SPACE_BETWEEN_BARS g + BAR_WIDTH g) * i' + k'
  /\ bar_x g i k + SPACE_BETWEEN_BARS g < bar_x g i' k'
  /\ bar_x g (i + 1) 0 - bar_x g i (BAR_WIDTH g - 1)
     = SPACE_BETWEEN_BARS g + 1.
Proof.
  intros Hs Hw Hi Hk Hk' Hfit. unfold OFFSET_LEFT, INT_MAX in *.
  set (s := SPACE_BETWEEN_BARS g) in *. set (w := BAR_WIDTH g) in *.
  assert (Hmono : (s + w) * (i + 1) <= (s + w) * i') by nia.
  assert (Hpos : 0 <= (s + w) * i) by nia.
  assert (Hx : forall j c, 0 <= j -> 0 <= c ->
            1 + 10 + (s + w) * j + c <= 2 ^ 31 - 1 ->
            bar_x g j c = 1 + 10 + (s + w) * j + c).
  { intros j c Hj Hc Hle. unfold bar_x, OFFSET_LEFT. fold s w.
    assert (0 <= (s + w) * j) by nia.
    rewrite (to_uint_small j), (to_uint_small c) by (unfold UINT_MOD; nia).
    rewrite to_uint_small by (unfold UINT_MOD; lia).
    apply to_int_small. unfold INT_MAX. lia. }
  rewrite (Hx i k), (Hx i' k'), (Hx (i + 1) 0), (Hx i (w - 1)) by nia.
  repeat split; nia.
Qed.

Lemma bar_x_columns_witness :
  bar_x default_globals 1 0 = 17
  /\ bar_x default_globals 0 2 + 3 < bar_x default_globals 1 0.
Proof.
  destruct (bar_x_columns default_globals 0 1 2 0
              ltac:(vm_compute; discriminate)
              ltac:(vm_compute; discriminate)
              ltac:(vm_compute; intuition discriminate)
              ltac:(vm_compute; intuition discriminate)
              ltac:(vm_compute; discriminate)
              ltac:(vm_compute; discriminate))
    as (_ & H1 & H2 & _).
  split; [exact H1 | exact H2].
Defined.

(** X11.  The rows of the panel, for a screen of 5 lines or more.  Level [j] of
    a bar is on row [SCREEN_HEIGHT - 3 - j]: the baseline on row
    [SCREEN_HEIGHT - 3], the top level [SCREEN_HEIGHT - 4] on row 1.  The
    arguments [-1] and [-2], passed as [unsigned int], wrap around and come
    back as the two rows under the baseline: the battery numbers on row
    [SCREEN_HEIGHT - 2] and the cursor on the last row. *)
Theorem bar_y_rows (g : globals) :
  5 <= SCREEN_HEIGHT g <= INT_MAX ->
  (forall j, 0 <= j <= SCREEN_HEIGHT g - 4 ->
     bar_y g j = SCREEN_HEIGHT g - 3 - j
     /\ 1 <= bar_y g j <= SCREEN_HEIGHT g - 3)
  /\ bar_y g (-1) = SCREEN_HEIGHT g - 2
  /\ bar_y g (-2) = SCREEN_HEIGHT g - 1
  /\ move_cursor_to_bottom_line g = Move (SCREEN_HEIGHT g - 1) 0.
Proof.
  intros Hh. unfold INT_MAX in Hh.
  assert (Hy : forall j, 0 <= j <= SCREEN_HEIGHT g - 4 ->
            bar_y g j = SCREEN_HEIGHT g - 3 - j).
  { intros j Hj. unfold bar_y, OFFSET_BOTTOM.
    rewrite (to_uint_small j) by (unfold UINT_MOD; lia).
    rewrite to_uint_small by (unfold UINT_MOD; lia).
    apply to_int_small. unfold INT_MAX. lia. }
  assert (Hneg : forall m, -2 <= m <= -1 ->
            bar_y g m = SCREEN_HEIGHT g - 3 - m).
  { intros m Hm. unfold bar_y, OFFSET_BOTTOM.
    rewrite (to_uint_neg m) by (unfold UINT_MOD; lia).
    rewrite (to_uint_neg (SCREEN_HEIGHT g - 3 - (m + UINT_MOD)))
      by (unfold UINT_MOD; lia).
    replace (SCREEN_HEIGHT g - 3 - (m + UINT_MOD) + UINT_MOD)
      with (SCREEN_HEIGHT g - 3 - m) by lia.
    apply to_int_small. unfold INT_MAX. lia. }
  split; [|split; [|split]].
  - intros j Hj. rewrite (Hy j Hj). lia.
  - rewrite (Hneg (-1)) by lia. lia.
  - rewrite (Hneg (-2)) by lia. lia.
  - unfold move_cursor_to_bottom_line. rewrite (Hneg (-2)) by lia. f_equal. lia.
Qed.

Lemma bar_y_rows_witness :
  bar_y default_globals 20 = 1 /\ bar_y default_globals (-1) = 22.
Proof.
  destruct (bar_y_rows default_globals
              ltac:(vm_compute; intuition discriminate)) as (Hj & H1 & _).
  split; [|exact H1].
  exact (proj1 (Hj 20 ltac:(vm_compute; intuition discriminate))).
Defined.

(** ** The default configuration *)

Lemma default_heights_bounded :
  forallb (fun d =>
    match bar_height default_globals (80 + d) with
    | Some h => (0 <=? h) && (h <=? 20)
    | None => false
    end) (count_up 71) = true.
Proof. vm_compute. reflexivity. Qed.

Lemma default_clamp_range (v : Z) :
  is_int v ->
  80 <= clamp default_globals v <= 150
  /\ clamp default_globals (clamp default_globals v) = clamp default_globals v.
Proof.
  unfold is_int. intros Hv.
  assert (Hm : 0 <= VOLTS_MIN default_globals <= VOLTS_MAX default_globals)
    by (vm_compute; intuition discriminate).
  assert (HM : VOLTS_MAX default_globals <= INT_MAX)
    by (vm_compute; discriminate).
  assert (Hc : 80 <= clamp default_globals v <= 150).
  { destruct (Z_lt_le_dec v 0) as [Hneg|Hpos].
    - pose proof (to_uint_negative v ltac:(lia)) as Hu.
      rewrite clamp_above_max;
        change (VOLTS_MIN default_globals) with 80;
        change (VOLTS_MAX default_globals) with 150; try lia.
      vm_compute. intuition discriminate.
    - rewrite (clamp_nonnegative default_globals Hm HM) by lia.
      change (VOLTS_MIN default_globals) with 80.
      change (VOLTS_MAX default_globals) with 150. lia. }
  split; [exact Hc|].
  rewrite (clamp_nonnegative default_globals Hm HM (clamp default_globals v))
    by (unfold INT_MAX; lia).
  change (VOLTS_MIN default_globals) with 80.
  change (VOLTS_MAX default_globals) with 150. lia.
Qed.

Lemma default_bar_height (v : Z) :
  is_int v -> exists h, bar_height default_globals v = Some h /\ 0 <= h <= 20.
Proof.
  intros Hv. destruct (default_clamp_range v Hv) as [Hc Hi].
  rewrite (bar_height_of_clamped default_globals v _ eq_refl Hi).
  assert (Hin : In (clamp default_globals v - 80) (count_up 71))
    by (apply In_count_up; lia).
  pose proof (proj1 (forallb_forall _ _) default_heights_bounded _ Hin) as H.
  cbv beta in H.
  replace (80 + (clamp default_globals v - 80))
    with (clamp default_globals v) in H by lia.
  destruct (bar_height default_globals (clamp default_globals v)) as [h|];
    [|discriminate].
  exists h. split; [reflexivity|]. apply andb_true_iff in H. lia.
Qed.

Lemma default_bar_defined (i v : Z) :
  is_int v ->
  exists ops, print_bar default_globals i v
              = Some (clamp default_globals v, ops).
Proof.
  intros Hv. destruct (default_bar_height v Hv) as (h & Hh & Hr).
  unfold print_bar, current_of. rewrite Hh.
  destruct (Z.leb_spec (1 + h) INT_MAX); [|unfold INT_MAX in *; lia].
  unfold blank_levels.
  destruct (Z.leb_spec 0 (1 + h)); [|lia].
  change (step_denominator default_globals) with 20.
  change (20 <? INT_MAX) with true. eexists. reflexivity.
Qed.

(** X12.  A run without options never leaves the renderer undefined: for every
    array of [int] readings [print_battery_bars] is defined, the heights
    lie between 0 and 20, and the array is left clamped into 80..150. *)
Theorem default_bars_defined (bs : list Z) :
  Forall is_int bs ->
  (exists ops, print_battery_bars default_globals bs
               = Some (map (clamp default_globals) bs, ops))
  /\ Forall (fun v => exists h, bar_height default_globals v = Some h
                                /\ 0 <= h <= 20) bs
  /\ Forall (fun c => 80 <= c <= 150) (map (clamp default_globals) bs).
Proof.
  intros Hbs. split; [|split].
  - unfold print_battery_bars.
    assert (H : forall i, exists ops,
               print_bars_from default_globals i bs
               = Some (map (clamp default_globals) bs, ops)).
    { induction Hbs as [|v rest Hv Hrest IH]; intros i.
      - exists []. reflexivity.
      - destruct (default_bar_defined i v Hv) as (ops1 & E1).
        destruct (IH (i + 1)) as (ops2 & E2).
        exists (ops1 ++ ops2). cbn [print_bars_from map]. now rewrite E1, E2. }
    destruct (H 0) as (ops & E). rewrite E. eexists. reflexivity.
  - apply Forall_forall. intros v Hv.
    apply default_bar_height. exact (proj1 (Forall_forall _ _) Hbs v Hv).
  - apply Forall_forall. intros c Hc. apply in_map_iff in Hc.
    destruct Hc as (v & <- & Hv).
    exact (proj1 (default_clamp_range v (proj1 (Forall_forall _ _) Hbs v Hv))).
Qed.

Lemma default_bars_defined_witness :
  exists ops, print_battery_bars default_globals [-5; 0; 115; 2147483647]
              = Some ([150; 80; 115; 150], ops).
Proof.
  assert (H : Forall is_int [-5; 0; 115; 2147483647]).
  { repeat constructor; vm_compute; intuition discriminate. }
  exact (proj1 (default_bars_defined _ H)).
Defined.

(** * Further properties of the read loop *)

(** ** One record *)

Lemma validate_is_valid_line (raw line : string) :
  validate_and_normalize raw = Some line -> is_valid_line raw = (true, line).
Proof.
  unfold validate_and_normalize.
  destruct (is_valid_line raw) as [valid l]. destruct valid; [|discriminate].
  intros H. now injection H as <-.
Qed.

Lemma validate_none_is_valid_line (raw : string) :
  validate_and_normalize raw = None -> fst (is_valid_line raw) = false.
Proof.
  unfold validate_and_normalize.
  destruct (is_valid_line raw) as [valid l]. now destruct valid.
Qed.

Lemma batteries_before_sentinel (readings : list Z) :
  firstn (batteries_size (readings ++ [-1])) (readings ++ [-1])
  = before_sentinel readings.
Proof.
  induction readings as [|v rest IH]; [reflexivity|].
  cbn [app batteries_size before_sentinel].
  destruct (v =? -1); [reflexivity|]. cbn [firstn]. now rewrite IH.
Qed.

Lemma before_sentinel_prefix (readings : list Z) :
  exists rest, readings = before_sentinel readings ++ rest
               /\ ~ In (-1) (before_sentinel readings)
               /\ (rest = [] \/ exists rest', rest = -1 :: rest').
Proof.
  induction readings as [|v vs IH].
  - exists []. repeat split; auto.
  - cbn [before_sentinel]. destruct (Z.eqb_spec v (-1)) as [->|Hv].
    + exists (-1 :: vs). repeat split; [auto | right; eauto].
    + destruct IH as (rest & Hr & Hn & Hc). exists rest.
      split; [cbn [app]; now rewrite <- Hr|]. split; [|exact Hc].
      intros [H|H]; [congruence | exact (Hn H)].
Qed.

(** The first token of a line is never extracted: the zone is opened
    after the test of the token that opens it. *)
Lemma reading_set_length (t : string) (ts : list string) :
  (List.length (reading_set (t :: ts)) <= List.length ts)%nat.
Proof.
  unfold reading_set. rewrite length_map.
  cbn [List.length seq filter].
  change (extracted (t :: ts) 0) with false.
  etransitivity; [apply filter_length_le | now rewrite length_seq].
Qed.

(** X13.  What [read_voltages] stores.  For a line with a token,
    [read_voltages] stores one [int] for every extracted token and the
    closing [-1] after them; the first token is never extracted, so the
    [int]s stored are at most as many as the tokens of the line, and a
    line of at most 25 tokens stays inside [int voltages[25]]. *)
Theorem read_voltages_store_count (line : string) :
  tokens line <> [] ->
  exists stored,
    read_voltages line = Some stored
    /\ List.length stored = S (List.length (reading_set (tokens line)))
    /\ extracted (tokens line) 0 = false
    /\ (List.length stored <= List.length (tokens line))%nat
    /\ ((List.length (tokens line) <= VOLTAGES_CAPACITY)%nat ->
        (List.length stored <= VOLTAGES_CAPACITY)%nat).
Proof.
  intros Ht. exists (reading_set (tokens line) ++ [-1]).
  rewrite read_voltages_tokens.
  destruct (tokens line) as [|t ts] eqn:Et; [contradiction|].
  rewrite run_tokens_reading_set, length_app. cbn [List.length].
  pose proof (reading_set_length t ts) as Hl.
  split; [reflexivity|]. split; [lia|]. split; [reflexivity|].
  split; lia.
Qed.

(** The bound is reached: the 26 tokens of a record with 25 readings make
    [read_voltages] store 26 [int]s, one more than [voltages] holds. *)
Lemma read_voltages_store_count_witness :
  List.length (tokens record_25_readings) = 26%nat
  /\ List.length (reading_set (tokens record_25_readings)) = 25%nat
  /\ VOLTAGES_CAPACITY = 25%nat
  /\ exists stored,
       read_voltages record_25_readings = Some stored
       /\ List.length stored
          = S (List.length (reading_set (tokens record_25_readings)))
       /\ extracted (tokens record_25_readings) 0 = false
       /\ (List.length stored <= List.length (tokens record_25_readings))%nat
       /\ ((List.length (tokens record_25_readings) <= VOLTAGES_CAPACITY)%nat ->
           (List.length stored <= VOLTAGES_CAPACITY)%nat).
Proof.
  split; [vm_compute; reflexivity|]. split; [vm_compute; reflexivity|].
  split; [reflexivity|].
  apply (read_voltages_store_count record_25_readings).
  vm_compute. discriminate.
Defined.

(** X14.  The frame of an accepted record.  The bars drawn are the readings in
    front of the first [-1], each clamped, in the order of the record: a
    reading that [atoi] wraps to [-1] ends the frame, as the closing [-1]
    does. *)
Theorem process_record_frame (g : globals) (raw line : string) :
  validate_and_normalize raw = Some line ->
  snd (process_record g raw) = true ->
  frames (fst (process_record g raw))
  = [map (clamp g) (before_sentinel (reading_set (tokens line)))]
  /\ exists rest,
       reading_set (tokens line)
       = before_sentinel (reading_set (tokens line)) ++ rest
       /\ ~ In (-1) (before_sentinel (reading_set (tokens line)))
       /\ (rest = [] \/ exists rest', rest = -1 :: rest').
Proof.
  intros Hval. unfold process_record.
  rewrite (validate_is_valid_line raw line Hval), read_voltages_tokens.
  intros Hok. split; [|apply before_sentinel_prefix]. revert Hok.
  destruct (tokens line) as [|t ts] eqn:Et; [discriminate|].
  rewrite run_tokens_reading_set, batteries_before_sentinel.
  destruct (VOLTAGES_CAPACITY <? _)%nat; [discriminate|].
  destruct (print_battery_bars g _) as [[bs ops]|] eqn:Ep; [|discriminate].
  intros _. cbn [fst]. rewrite !frames_app.
  rewrite (print_battery_bars_array g _ bs ops Ep).
  destruct (OUTPUT_FILE g), (0 <? FRAME_INTERVAL g); reflexivity.
Qed.

Lemma process_record_frame_witness :
  frames (fst (process_record default_globals "B,70,4294967295,90,H"))
  = [[80]].
Proof.
  destruct (process_record_frame default_globals
              "B,70,4294967295,90,H" "B,70,4294967295,90,H" eq_refl eq_refl)
    as [H _].
  rewrite H. reflexivity.
Defined.

(** X15.  From the record to the bars.  For an accepted record whose fields
    have at most nine characters, in a configuration with
    [VOLTS_MIN <= VOLTS_MAX] that an [int] holds, the frame drawn is the
    Reading Set of the record with every value raised to [VOLTS_MIN] or
    lowered to [VOLTS_MAX] where it lies outside: nothing is cut and
    nothing wraps. *)
Theorem accepted_record_bars (g : globals) (raw line : string) :
  validate_and_normalize raw = Some line ->
  (forall t, In t (tokens line) -> (String.length t <= 9)%nat) ->
  0 <= VOLTS_MIN g <= VOLTS_MAX g -> VOLTS_MAX g <= INT_MAX ->
  snd (process_record g raw) = true ->
  frames (fst (process_record g raw))
  = [map (fun v => Z.max (VOLTS_MIN g) (Z.min v (VOLTS_MAX g)))
         (reading_set (tokens line))].
Proof.
  intros Hval Hshort Hm HM Hok.
  pose proof (accepted_readings_range raw line Hval Hshort) as Hread.
  assert (Hframe : frames (fst (process_record g raw))
            = [map (clamp g) (before_sentinel (reading_set (tokens line)))]).
  { revert Hok. unfold process_record.
    rewrite (validate_is_valid_line raw line Hval), read_voltages_tokens.
    destruct (tokens line) as [|t ts] eqn:Et; [discriminate|].
    rewrite run_tokens_reading_set, batteries_before_sentinel.
    destruct (VOLTAGES_CAPACITY <? _)%nat; [discriminate|].
    destruct (print_battery_bars g _) as [[bs ops]|] eqn:Ep; [|discriminate].
    intros _. cbn [fst]. rewrite !frames_app.
    rewrite (print_battery_bars_array g _ bs ops Ep).
    destruct (OUTPUT_FILE g), (0 <? FRAME_INTERVAL g); reflexivity. }
  rewrite Hframe. f_equal.
  rewrite before_sentinel_all
    by (intros v Hv; specialize (Hread v Hv); lia).
  apply map_ext_in. intros v Hv. specialize (Hread v Hv).
  apply (clamp_nonnegative g Hm HM). unfold INT_MAX. lia.
Qed.

Lemma accepted_record_bars_witness :
  frames (fst (process_record default_globals record_with_blanks)) = [[120]].
Proof.
  assert (Hshort : forall t, In t (tokens "B,120,H") ->
                   (String.length t <= 9)%nat).
  { intros t Ht. vm_compute in Ht.
    repeat (destruct Ht as [<-|Ht]; [vm_compute; lia|]). destruct Ht. }
  rewrite (accepted_record_bars default_globals record_with_blanks "B,120,H"
             eq_refl Hshort
             ltac:(vm_compute; intuition discriminate)
             ltac:(vm_compute; discriminate) eq_refl).
  reflexivity.
Defined.

(** X16.  White space does not count.  Two records that differ only in their
    blanks, tabs and line ends are validated alike and give the same
    events: the same line in the mirror file and the same frame.  Blanks
    inside a field join its parts. *)
Theorem white_space_is_ignored (g : globals) (raw raw' : string) :
  strip_white_space raw = strip_white_space raw' ->
  validate_and_normalize raw = validate_and_normalize raw'
  /\ process_record g raw = process_record g raw'.
Proof.
  intros Hs.
  assert (Hflag : forall r, is_valid_line r
            = (negb (Nat.eqb (String.length (strip_white_space r)) 0)
               && check_allowed (strip_white_space r),
               if negb (Nat.eqb (String.length (strip_white_space r)) 0)
                  && check_allowed (strip_white_space r)
               then strip_white_space r else r)).
  { intros r. unfold is_valid_line.
    destruct (check_allowed (strip_white_space r)),
      (negb (Nat.eqb (String.length (strip_white_space r)) 0)); reflexivity. }
  unfold process_record, validate_and_normalize.
  rewrite (Hflag raw), (Hflag raw'), Hs.
  destruct (negb (Nat.eqb (String.length (strip_white_space raw')) 0)
            && check_allowed (strip_white_space raw')); split; reflexivity.
Qed.

Lemma white_space_is_ignored_witness :
  process_record default_globals "B,1 2 0,H"
  = process_record default_globals record_with_blanks.
Proof.
  exact (proj2 (white_space_is_ignored default_globals
                  "B,1 2 0,H" record_with_blanks eq_refl)).
Defined.

(** ** A whole run *)

Lemma process_record_shape (g : globals) (raw : string) :
  appended (fst (process_record g raw))
  = match OUTPUT_FILE g with Some _ => mirrored raw | None => [] end
  /\ closes (fst (process_record g raw)) = 0%nat
  /\ sleeps (fst (process_record g raw))
     = (if 0 <? FRAME_INTERVAL g
        then map (fun _ => FRAME_INTERVAL g) (frames (fst (process_record g raw)))
        else []).
Proof.
  unfold process_record, mirrored, validate_and_normalize.
  destruct (is_valid_line raw) as [valid line].
  destruct valid;
    [|repeat split; destruct (OUTPUT_FILE g), (0 <? FRAME_INTERVAL g);
      reflexivity].
  destruct (read_voltages line) as [voltages|];
    [|repeat split; destruct (OUTPUT_FILE g), (0 <? FRAME_INTERVAL g);
      reflexivity].
  destruct (VOLTAGES_CAPACITY <? List.length voltages)%nat;
    [repeat split; destruct (OUTPUT_FILE g), (0 <? FRAME_INTERVAL g);
     reflexivity|].
  destruct (print_battery_bars g _) as [[bs ops]|];
    repeat split; destruct (OUTPUT_FILE g), (0 <? FRAME_INTERVAL g);
    reflexivity.
Qed.

Lemma closes_app (evs evs' : list event) :
  closes (evs ++ evs') = (closes evs + closes evs')%nat.
Proof. unfold closes. now rewrite filter_app, length_app. Qed.

Lemma sleeps_app (evs evs' : list event) :
  sleeps (evs ++ evs') = sleeps evs ++ sleeps evs'.
Proof. apply flat_map_app. Qed.

(** The records of a session that are reached: all of them, or those up
    to the first one on which the behaviour is undefined. *)
Lemma read_records_shape (g : globals) (records : list string) :
  closes (fst (read_records g records)) = 0%nat
  /\ sleeps (fst (read_records g records))
     = (if 0 <? FRAME_INTERVAL g
        then map (fun _ => FRAME_INTERVAL g)
                 (frames (fst (read_records g records)))
        else [])
  /\ (OUTPUT_FILE g = None -> appended (fst (read_records g records)) = [])
  /\ (snd (read_records g records) = true ->
      appended (fst (read_records g records))
      = match OUTPUT_FILE g with
        | Some _ => flat_map mirrored records
        | None => []
        end).
Proof.
  induction records as [|raw rest IH].
  - cbn. repeat split; destruct (0 <? FRAME_INTERVAL g), (OUTPUT_FILE g);
      reflexivity.
  - cbn [read_records].
    destruct (process_record_shape g raw) as (Ha & Hc & Hs).
    destruct (process_record g raw) as [evs ok]. cbn [fst] in Ha, Hc, Hs.
    destruct ok.
    + destruct IH as (Ic & Is & In' & Ia).
      destruct (read_records g rest) as [evs' ok']. cbn [fst snd] in *.
      rewrite closes_app, sleeps_app, appended_app, frames_app, Hc, Ic, Hs, Is, Ha.
      split; [reflexivity|]. split; [|split].
      * destruct (0 <? FRAME_INTERVAL g); [now rewrite map_app | reflexivity].
      * intros Hn. rewrite Hn in *. now rewrite In'.
      * intros Hok. rewrite (Ia Hok). now destruct (OUTPUT_FILE g).
    + cbn [fst snd]. rewrite Ha, Hc, Hs.
      split; [reflexivity|]. split; [reflexivity|]. split; [|discriminate].
      intros Hn. now rewrite Hn.
Qed.

Lemma file_discipline_app (b : bool) (evs evs' : list event) :
  file_discipline b (evs ++ evs')
  = match file_discipline b evs with
    | Some b' => file_discipline b' evs'
    | None => None
    end.
Proof.
  revert b. induction evs as [|e evs IH]; intros b; [reflexivity|].
  cbn [app file_discipline]. destruct e, b; auto.
Qed.

Lemma process_record_discipline (g : globals) (raw : string) :
  file_discipline true (fst (process_record g raw)) = Some true.
Proof.
  unfold process_record.
  destruct (is_valid_line raw) as [valid line].
  destruct valid; [|reflexivity].
  destruct (read_voltages line) as [voltages|];
    [|now destruct (OUTPUT_FILE g)].
  destruct (VOLTAGES_CAPACITY <? List.length voltages)%nat;
    [now destruct (OUTPUT_FILE g)|].
  destruct (print_battery_bars g _) as [[bs ops]|];
    [|now destruct (OUTPUT_FILE g)].
  cbn [fst]. destruct (OUTPUT_FILE g), (0 <? FRAME_INTERVAL g); reflexivity.
Qed.

Lemma read_records_discipline (g : globals) (records : list string) :
  file_discipline true (fst (read_records g records)) = Some true.
Proof.
  induction records as [|raw rest IH]; [reflexivity|].
  cbn [read_records].
  pose proof (process_record_discipline g raw) as Hp.
  destruct (process_record g raw) as [evs ok]. cbn [fst] in Hp.
  destruct ok; [|exact Hp].
  destruct (read_records g rest) as [evs' ok']. cbn [fst] in *.
  now rewrite file_discipline_app, Hp.
Qed.

(** X17.  The source file is handled in order in every run: it is opened only
    while closed, records are processed and the file is closed only while
    it is open, so it is never open twice, also when the loop opens it
    again after a read error; and it is closed when the run ends, unless
    the run became undefined while reading. *)
Theorem main_loop_file_discipline (g : globals) (world : list session) :
  file_discipline false (fst (main_loop g world))
  = Some (match snd (main_loop g world) with
          | Undefined => true
          | _ => false
          end)
  /\ closes (fst (main_loop g world))
     = match snd (main_loop g world) with
       | Undefined => Nat.pred (opens (fst (main_loop g world)))
       | _ => opens (fst (main_loop g world))
       end.
Proof.
  induction world as [|s world IH]; [split; reflexivity|].
  destruct s as [|records ending]; [split; reflexivity|].
  cbn [main_loop].
  pose proof (read_records_opens g records) as Ho.
  pose proof (read_records_discipline g records) as Hd.
  destruct (read_records_shape g records) as (Hc & _).
  destruct (read_records g records) as [evs ok]. cbn [fst] in Ho, Hc, Hd.
  assert (Hopen : forall l, opens (Fopen :: l) = S (opens l)) by reflexivity.
  assert (Hclose : forall l, closes (Fopen :: l) = closes l) by reflexivity.
  assert (Hclose1 : forall l, closes (Fclose :: l) = S (closes l)) by reflexivity.
  assert (Hopen1 : forall l, opens (Fclose :: l) = opens l) by reflexivity.
  destruct ok.
  - destruct ending.
    + cbn [fst snd file_discipline].
      rewrite file_discipline_app, Hd, Hopen, Hclose, closes_app, opens_app, Hc, Ho.
      split; reflexivity.
    + destruct (main_loop g world) as [evs' out]. cbn [fst snd] in *.
      destruct IH as [IH1 IH2]. cbn [file_discipline].
      rewrite file_discipline_app, Hd. cbn [file_discipline]. rewrite IH1.
      split; [reflexivity|].
      rewrite Hopen, Hclose, closes_app, opens_app, Hc, Ho, Hclose1, Hopen1, IH2.
      destruct out; try reflexivity.
      assert (Hpos : (1 <= opens evs')%nat).
      { destruct evs' as [|e evs'']; [discriminate IH1|].
        destruct e; try discriminate IH1. rewrite Hopen. lia. }
      cbn [Nat.add]. lia.
  - cbn [fst snd file_discipline]. rewrite Hd, Hopen, Hclose, Hc, Ho.
    split; reflexivity.
Qed.

Lemma pace_app (interval : Z) (due : bool) (evs evs' : list event) :
  pace interval due (evs ++ evs')
  = match pace interval due evs with
    | Some due' => pace interval due' evs'
    | None => None
    end.
Proof.
  revert due. induction evs as [|e evs IH]; intros due; [reflexivity|].
  cbn [app pace].
  destruct e as [| | bytes | batteries ops | us];
    [destruct due; auto .. | destruct (due && (us =? interval)); auto].
Qed.

Lemma mirror_order_app (mirror due : bool) (evs evs' : list event) :
  mirror_order mirror due (evs ++ evs')
  = match mirror_order mirror due evs with
    | Some due' => mirror_order mirror due' evs'
    | None => None
    end.
Proof.
  revert due. induction evs as [|e evs IH]; intros due; [reflexivity|].
  cbn [app mirror_order].
  destruct e as [| | bytes | batteries ops | us];
    [destruct due; auto | destruct due; auto
    | destruct (mirror && negb due); auto
    | destruct (Bool.eqb due mirror); auto
    | destruct due; auto].
Qed.

(** The events of one record keep the pace, and keep the order of the
    mirror file; a frame is still due after them only when the behaviour
    became undefined right after the [Append]. *)
Lemma process_record_order (g : globals) (raw : string) :
  pace (FRAME_INTERVAL g) false (fst (process_record g raw)) = Some false
  /\ exists due,
       mirror_order (mirrors g) false (fst (process_record g raw)) = Some due
       /\ (snd (process_record g raw) = true -> due = false).
Proof.
  unfold process_record, mirrors.
  destruct (is_valid_line raw) as [valid line].
  destruct valid; [|split; [reflexivity | exists false; auto]].
  destruct (read_voltages line) as [voltages|];
    [|destruct (OUTPUT_FILE g); (split; [reflexivity|]);
      eexists; (split; [reflexivity | discriminate])].
  destruct (VOLTAGES_CAPACITY <? List.length voltages)%nat;
    [destruct (OUTPUT_FILE g); (split; [reflexivity|]);
     eexists; (split; [reflexivity | discriminate])|].
  destruct (print_battery_bars g _) as [[bs ops]|];
    [|destruct (OUTPUT_FILE g); (split; [reflexivity|]);
      eexists; (split; [reflexivity | discriminate])].
  cbn [fst snd]. split.
  - destruct (OUTPUT_FILE g), (0 <? FRAME_INTERVAL g) eqn:E;
      cbn [app pace]; rewrite E; cbn [pace andb];
      rewrite ?Z.eqb_refl; reflexivity.
  - exists false. split; [|reflexivity].
    destruct (OUTPUT_FILE g), (0 <? FRAME_INTERVAL g); reflexivity.
Qed.

Lemma read_records_order (g : globals) (records : list string) :
  pace (FRAME_INTERVAL g) false (fst (read_records g records)) = Some false
  /\ exists due,
       mirror_order (mirrors g) false (fst (read_records g records)) = Some due
       /\ (snd (read_records g records) = true -> due = false).
Proof.
  induction records as [|raw rest IH];
    [split; [reflexivity | exists false; auto]|].
  cbn [read_records].
  destruct (process_record_order g raw) as (Hp & due & Hm & Hd).
  destruct (process_record g raw) as [evs ok]. cbn [fst snd] in Hp, Hm, Hd.
  destruct ok; [|split; [exact Hp | exists due; auto]].
  destruct IH as (Ip & due' & Im & Id).
  destruct (read_records g rest) as [evs' ok']. cbn [fst snd] in *.
  split; [now rewrite pace_app, Hp|].
  exists due'. rewrite mirror_order_app, Hm, (Hd eq_refl). auto.
Qed.

(** X18.  The mirror file and the pace of a run.  Without an output file no run
    appends anything.  With one, a session that stays defined appends the
    normalized text of its accepted records, each followed by a newline,
    in the order read.  Along the trace of every run a [usleep] occurs
    only as the event right after a frame and lasts [FRAME_INTERVAL]
    microseconds; it follows every frame when that interval is not zero,
    and no frame when it is.  With an output file every frame is drawn as
    the event right after the [Append] of its record, and an [Append] is
    followed by nothing but that frame: the record is mirrored before it
    is drawn, and the pause comes after the frame.  Only a run that
    became undefined ends between an [Append] and its frame. *)
Theorem run_mirror_and_pace (g : globals) :
  (OUTPUT_FILE g = None ->
   forall world, appended (fst (main_loop g world)) = [])
  /\ (forall path records,
        OUTPUT_FILE g = Some path ->
        snd (read_records g records) = true ->
        appended (fst (read_records g records)) = flat_map mirrored records)
  /\ (forall world,
        sleeps (fst (main_loop g world))
        = (if 0 <? FRAME_INTERVAL g
           then map (fun _ => FRAME_INTERVAL g)
                    (frames (fst (main_loop g world)))
           else []))
  /\ (forall world,
        pace (FRAME_INTERVAL g) false (fst (main_loop g world)) = Some false)
  /\ (forall world, exists due,
        mirror_order (mirrors g) false (fst (main_loop g world)) = Some due
        /\ (due = true -> snd (main_loop g world) = Undefined)).
Proof.
  split; [|split; [|split; [|split]]].
  - intros Hn world. induction world as [|s world IH]; [reflexivity|].
    destruct s as [|records ending]; [reflexivity|]. cbn [main_loop].
    destruct (read_records_shape g records) as (_ & _ & Ha & _).
    specialize (Ha Hn).
    destruct (read_records g records) as [evs ok]. cbn [fst] in Ha.
    assert (Hopen : forall l, appended (Fopen :: l) = appended l) by reflexivity.
    assert (Hcl : forall l, appended (Fclose :: l) = appended l) by reflexivity.
    destruct ok; [destruct ending|]; cbn [fst].
    + now rewrite Hopen, appended_app, Ha.
    + destruct (main_loop g world) as [evs' out]. cbn [fst] in *.
      now rewrite Hopen, appended_app, Hcl, Ha, IH.
    + now rewrite Hopen.
  - intros path records Hp Hok.
    destruct (read_records_shape g records) as (_ & _ & _ & Ha).
    rewrite (Ha Hok), Hp. reflexivity.
  - intros world. induction world as [|s world IH];
      [cbn; now destruct (0 <? FRAME_INTERVAL g)|].
    destruct s as [|records ending];
      [cbn; now destruct (0 <? FRAME_INTERVAL g)|].
    cbn [main_loop].
    destruct (read_records_shape g records) as (_ & Hs & _).
    destruct (read_records g records) as [evs ok]. cbn [fst] in Hs.
    assert (Hopen : forall l, sleeps (Fopen :: l) = sleeps l) by reflexivity.
    assert (Hcl : forall l, sleeps (Fclose :: l) = sleeps l) by reflexivity.
    assert (Fopen' : forall l, frames (Fopen :: l) = frames l) by reflexivity.
    assert (Fcl : forall l, frames (Fclose :: l) = frames l) by reflexivity.
    destruct ok; [destruct ending|]; cbn [fst].
    + rewrite Hopen, Fopen', sleeps_app, frames_app, Hs.
      destruct (0 <? FRAME_INTERVAL g); [now rewrite map_app | reflexivity].
    + destruct (main_loop g world) as [evs' out]. cbn [fst] in *.
      rewrite Hopen, Fopen', sleeps_app, frames_app, Hcl, Fcl, Hs, IH.
      destruct (0 <? FRAME_INTERVAL g); [now rewrite map_app | reflexivity].
    + now rewrite Hopen, Fopen', Hs.
  - intros world. induction world as [|s world IH]; [reflexivity|].
    destruct s as [|records ending]; [reflexivity|]. cbn [main_loop].
    destruct (read_records_order g records) as (Hp & _).
    destruct (read_records g records) as [evs ok]. cbn [fst] in Hp.
    destruct ok; [destruct ending|]; cbn [fst pace].
    + now rewrite pace_app, Hp.
    + destruct (main_loop g world) as [evs' out]. cbn [fst pace] in *.
      now rewrite pace_app, Hp.
    + exact Hp.
  - intros world. induction world as [|s world IH]; [exists false; split;
      [reflexivity | discriminate]|].
    destruct s as [|records ending];
      [exists false; split; [reflexivity | discriminate]|].
    cbn [main_loop].
    destruct (read_records_order g records) as (_ & due & Hm & Hd).
    destruct (read_records g records) as [evs ok]. cbn [fst snd] in Hm, Hd.
    destruct ok; [destruct ending|]; cbn [fst snd mirror_order].
    + exists false. rewrite mirror_order_app, Hm, (Hd eq_refl).
      split; [reflexivity | discriminate].
    + destruct (main_loop g world) as [evs' out].
      cbn [fst snd mirror_order] in *.
      destruct IH as (due' & Im & Id). exists due'.
      rewrite mirror_order_app, Hm, (Hd eq_refl). cbn [mirror_order]. auto.
    + exists due. auto.
Qed.

(** X19.  How a run ends badly.  After passes that ended in read errors, an
    [fopen] that fails ends the run in [OpenFailed] with nothing more
    done, and a record on which the behaviour is undefined ends it with
    the events up to that record; what the file system would have given
    later is not looked at. *)
Theorem main_loop_bad_endings (g : globals) (errs rest : list session) :
  forallb (read_error_session g) errs = true ->
  main_loop g (errs ++ OpenFails :: rest)
  = (flat_map (session_events g) errs, OpenFailed)
  /\ forall records ending,
       snd (read_records g records) = false ->
       main_loop g (errs ++ Opened records ending :: rest)
       = (flat_map (session_events g) errs
          ++ Fopen :: fst (read_records g records), Undefined).
Proof.
  intros Herrs. split.
  - rewrite (main_loop_read_errors g errs _ Herrs). cbn [main_loop fst snd].
    now rewrite app_nil_r.
  - intros records ending Hbad.
    rewrite (main_loop_read_errors g errs _ Herrs). cbn [main_loop].
    destruct (read_records g records) as [evs ok]. cbn [snd fst] in *.
    subst ok. reflexivity.
Qed.

Lemma main_loop_bad_endings_witness :
  main_loop default_globals
    [Opened [record_100] ReadError; OpenFails; Opened [record_120] AtEof]
  = (session_events default_globals (Opened [record_100] ReadError),
     OpenFailed).
Proof.
  destruct (main_loop_bad_endings default_globals
              [Opened [record_100] ReadError] [Opened [record_120] AtEof]
              eq_refl) as [H _].
  cbn [app flat_map] in H. rewrite H. now rewrite app_nil_r.
Defined.

(** * Properties of the panels *)

Lemma add_signed_zero (x y : float) :
  not_negative (Prim2SF x) = true ->
  (exists s, Prim2SF y = S754_zero s) ->
  (x + y)%float = x.
Proof.
  intros Hx (s & Hy). apply Prim2SF_inj.
  rewrite FloatAxioms.add_spec, Hy. unfold SF64add, SFadd.
  destruct (Prim2SF x) as [sx|sx| |sx mx ex]; cbn [not_negative] in Hx;
    try reflexivity.
  apply negb_true_iff in Hx. subst sx. now destruct s.
Qed.

Lemma zero_times_finite (s : float) :
  is_finite s = true ->
  exists b, Prim2SF (Double.of_uint 0 * s)%float = S754_zero b.
Proof.
  unfold is_finite. intros Hs. rewrite FloatAxioms.mul_spec.
  change (Prim2SF (Double.of_uint 0)) with (S754_zero false).
  unfold SF64mul, SFmul.
  destruct (Prim2SF s) as [b|b| |b m e]; try discriminate Hs; eauto.
Qed.

Lemma even_levels_spec (g : globals) (i : Z) :
  In i (even_levels g)
  <-> 0 <= i <= step_denominator g /\ i mod 2 = 0.
Proof.
  unfold even_levels. rewrite in_map_iff.
  pose proof (to_uint_range (OFFSET_TOP g - OFFSET_BOTTOM)) as Hb.
  unfold is_uint in Hb. fold (step_denominator g) in Hb.
  split.
  - intros (n & <- & Hn). apply In_count_up in Hn.
    split; [|rewrite Z.mul_comm; apply Z.mod_mul; lia].
    pose proof (Z.mul_div_le (step_denominator g) 2 ltac:(lia)). lia.
  - intros (Hi & Hm). exists (i / 2). split.
    + pose proof (Z.div_mod i 2 ltac:(lia)). lia.
    + apply In_count_up. split; [apply Z.div_pos; lia|].
      assert (i / 2 <= step_denominator g / 2) by (apply Z.div_le_mono; lia).
      lia.
Qed.

(** X20.  The left panel of a screen of 5 lines or more.  The axis has a label
    beside every second level from the baseline up to the top of the
    bars, [(SCREEN_HEIGHT - 4) / 2 + 1] of them, each on the row of its
    level in column 4; the caption of the battery numbers is on the row
    under the baseline and the cursor ends on the last row.  When
    [VOLTS_STEP] is finite the label of the baseline is [VOLTS_MIN] in
    volts. *)
Theorem print_left_panel_layout (opts : list (Z * string)) (g : globals) :
  set_options opts initial_globals = Some g ->
  5 <= SCREEN_HEIGHT g <= INT_MAX ->
  print_left_panel g
  = Some (Text 0 4 "Volts:"
          :: map (fun i => Label (SCREEN_HEIGHT g - 3 - i) 4 (label_volts g i))
                 (even_levels g)
          ++ [Text (SCREEN_HEIGHT g - 2) 1 "Battery:";
              Cursor (SCREEN_HEIGHT g - 1) 0])
  /\ List.length (even_levels g) = Z.to_nat ((SCREEN_HEIGHT g - 4) / 2 + 1)
  /\ (forall i, In i (even_levels g)
      <-> 0 <= i <= SCREEN_HEIGHT g - 4 /\ i mod 2 = 0)
  /\ (is_finite (VOLTS_STEP g) = true ->
      label_volts g 0 = (Double.of_uint (VOLTS_MIN g) / 10)%float).
Proof.
  intros Hg Hh.
  assert (Hd : step_denominator g = SCREEN_HEIGHT g - 4).
  { revert Hg. unfold set_options.
    destruct (options_loop opts (initial_globals, false)) as [g' f].
    destruct f; [discriminate|]. intros E. injection E as <-.
    unfold step_denominator, derive, OFFSET_BOTTOM, INT_MAX in *.
    cbn [OFFSET_TOP SCREEN_HEIGHT] in *.
    rewrite (to_uint_small (SCREEN_HEIGHT g' - 1)) by (unfold UINT_MOD; lia).
    rewrite to_uint_small by (unfold UINT_MOD; lia). lia. }
  assert (Hy : forall j, 0 <= j <= SCREEN_HEIGHT g - 4 ->
            bar_y g j = SCREEN_HEIGHT g - 3 - j).
  { intros j Hj. unfold bar_y, OFFSET_BOTTOM, INT_MAX in *.
    rewrite (to_uint_small j) by (unfold UINT_MOD; lia).
    rewrite to_uint_small by (unfold UINT_MOD; lia).
    apply to_int_small. unfold INT_MAX. lia. }
  assert (Hneg : forall m, -2 <= m <= -1 ->
            bar_y g m = SCREEN_HEIGHT g - 3 - m).
  { intros m Hm. unfold bar_y, OFFSET_BOTTOM, INT_MAX in *.
    rewrite (to_uint_neg m) by (unfold UINT_MOD; lia).
    rewrite (to_uint_neg (SCREEN_HEIGHT g - 3 - (m + UINT_MOD)))
      by (unfold UINT_MOD; lia).
    replace (SCREEN_HEIGHT g - 3 - (m + UINT_MOD) + UINT_MOD)
      with (SCREEN_HEIGHT g - 3 - m) by lia.
    apply to_int_small. unfold INT_MAX. lia. }
  split; [|split; [|split]].
  - unfold print_left_panel. rewrite Hd.
    destruct (Z.leb_spec (SCREEN_HEIGHT g - 4) (INT_MAX - 2)); [|lia].
    change (CInt.to_int (to_uint (OFFSET_LEFT - 6))) with 4.
    rewrite (Hneg (-1)), (Hneg (-2)) by lia.
    f_equal. f_equal. f_equal; [|f_equal; [f_equal; lia | f_equal; f_equal; lia]].
    apply map_ext_in. intros i Hi. apply even_levels_spec in Hi.
    rewrite Hy by lia. reflexivity.
  - unfold even_levels. now rewrite length_map, count_up_length, Hd.
  - intros i. rewrite even_levels_spec, Hd. reflexivity.
  - intros Hf. unfold label_volts. f_equal.
    apply add_signed_zero; [apply of_uint_not_negative|].
    now apply zero_times_finite.
Qed.

Lemma print_left_panel_layout_witness :
  option_map (@List.length panel_op) (print_left_panel default_globals)
  = Some 14%nat
  /\ label_volts default_globals 0 = 8%float
  /\ label_volts default_globals 20 = 15%float.
Proof.
  destruct (print_left_panel_layout [] default_globals eq_refl
              ltac:(vm_compute; intuition discriminate))
    as (Hp & _ & _ & H0).
  split; [rewrite Hp; reflexivity|].
  split; [rewrite (H0 eq_refl); reflexivity | reflexivity].
Defined.

(** X21.  The battery numbers of a screen of 5 lines or more: bar [i] has its
    number [i + 1] on the row under the baseline, in the first column of
    the bar; a count that is not positive prints nothing. *)
Theorem print_bottom_panel_layout (g : globals) (battery_count : Z) :
  5 <= SCREEN_HEIGHT g <= INT_MAX ->
  0 <= SPACE_BETWEEN_BARS g -> 0 <= BAR_WIDTH g ->
  battery_count <= INT_MAX ->
  1 + OFFSET_LEFT + (SPACE_BETWEEN_BARS g + BAR_WIDTH g) * battery_count
  <= INT_MAX ->
  print_bottom_panel g battery_count
  = map (fun i => Mvprintw (SCREEN_HEIGHT g - 2)
                    (1 + OFFSET_LEFT
                     + (SPACE_BETWEEN_BARS g + BAR_WIDTH g) * i)
                    (i + 1))
        (count_up battery_count)
  /\ List.length (print_bottom_panel g battery_count) = Z.to_nat battery_count
  /\ (battery_count <= 0 -> print_bottom_panel g battery_count = []).
Proof.
  intros Hh Hs Hw Hint Hfit. unfold INT_MAX, OFFSET_LEFT in *.
  assert (Hrow : bar_y g (-1) = SCREEN_HEIGHT g - 2).
  { unfold bar_y, OFFSET_BOTTOM.
    rewrite (to_uint_neg (-1)) by (unfold UINT_MOD; lia).
    rewrite (to_uint_neg (SCREEN_HEIGHT g - 3 - (-1 + UINT_MOD)))
      by (unfold UINT_MOD; lia).
    replace (SCREEN_HEIGHT g - 3 - (-1 + UINT_MOD) + UINT_MOD)
      with (SCREEN_HEIGHT g - 2) by lia.
    apply to_int_small. unfold INT_MAX. lia. }
  split; [|split].
  - unfold print_bottom_panel. apply map_ext_in. intros i Hi.
    apply In_count_up in Hi. rewrite Hrow. f_equal.
    unfold bar_x, OFFSET_LEFT.
    set (s := SPACE_BETWEEN_BARS g) in *. set (w := BAR_WIDTH g) in *.
    assert (0 <= (s + w) * i <= (s + w) * battery_count) by nia.
    rewrite (to_uint_small i) by (unfold UINT_MOD; lia).
    change (to_uint 0) with 0.
    rewrite to_uint_small by (unfold UINT_MOD; lia).
    rewrite to_int_small by (unfold INT_MAX; lia). lia.
  - unfold print_bottom_panel. now rewrite length_map, count_up_length.
  - intros Hn. unfold print_bottom_panel, count_up.
    replace (Z.to_nat battery_count) with 0%nat by lia. reflexivity.
Qed.

Lemma print_bottom_panel_layout_witness :
  print_bottom_panel default_globals 3
  = [Mvprintw 22 11 1; Mvprintw 22 17 2; Mvprintw 22 23 3].
Proof.
  rewrite (proj1 (print_bottom_panel_layout default_globals 3
                    ltac:(vm_compute; intuition discriminate)
                    ltac:(vm_compute; discriminate)
                    ltac:(vm_compute; discriminate)
                    ltac:(vm_compute; discriminate)
                    ltac:(vm_compute; discriminate))).
  reflexivity.
Defined.

(** X22.  In a run without options the height of a bar does not decrease when
    the reading grows, for the readings from 0 up that an [int] holds; the
    heights stay between 0 and 20, the top of the panel. *)
Theorem default_height_monotone (v1 v2 : Z) :
  0 <= v1 <= v2 -> v2 <= INT_MAX ->
  exists h1 h2, bar_height default_globals v1 = Some h1
                /\ bar_height default_globals v2 = Some h2
                /\ 0 <= h1 <= h2 /\ h2 <= 20.
Proof.
  intros H1 H2.
  destruct (default_heights_monotone_nonnegative v1 v2 H1 H2)
    as (h1 & h2 & E1 & E2 & Hle).
  exists h1, h2. split; [exact E1|]. split; [exact E2|].
  destruct (default_bar_height v1) as (a & Ea & Ha);
    [unfold is_int, INT_MIN; lia|].
  destruct (default_bar_height v2) as (b & Eb & Hb);
    [unfold is_int, INT_MIN; lia|].
  rewrite E1 in Ea. rewrite E2 in Eb.
  injection Ea as <-. injection Eb as <-. lia.
Qed.

Lemma default_height_monotone_witness :
  exists h1 h2, bar_height default_globals 95 = Some h1
                /\ bar_height default_globals 2000 = Some h2
                /\ 0 <= h1 <= h2 /\ h2 <= 20.
Proof.
  exact (default_height_monotone 95 2000 ltac:(lia)
           ltac:(vm_compute; discriminate)).
Defined.
